(** * cv-tracker: the advertisement store of App.tsx

    A shallow embedding of the store logic of [src/App.tsx] (the restyled
    variant carries the same functions verbatim): the [Advertisement]
    record, [loadAdvertisements], [saveAdvertisements], [addAdvertisement],
    [deleteAdvertisement], the search filter [filteredAdvertisements] and
    the handlers [handleAddPress] and [handleSave] that guard them.

    Modelling conventions.
    - A JavaScript string is a [string]: a sequence of code units below 256.
    - A JavaScript number that holds a time value is a [Z].
    - React state is a record; a handler is a function from the state before
      to the state after.  The durable slot, the alerts shown and the console
      output are part of the state, so that they can be spoken about.
    - The platform decides whether a storage call fails and what the clock
      reads; both are arguments of the handler that consults them.
    - Handlers run one at a time, each to its end: the event loop of the
      host hands the application one press after the other. *)

From Stdlib Require Import ZArith NArith List String Ascii Bool Lia FinFun.
Import ListNotations.
Open Scope string_scope.
Open Scope Z_scope.

#[local] Set Warnings "-register-all".

(* ================================================================== *)
(** ** String primitives of the platform *)

Module JsString.

Definition code (c : ascii) : N := N_of_ascii c.

(** White space and line terminators removed by [String.prototype.trim],
    restricted to code units below 256: TAB, LF, VT, FF, CR, SP, NBSP. *)
Definition isWhiteSpace (c : ascii) : bool :=
  let n := code c in
  ((9 <=? n) && (n <=? 13) || (n =? 32) || (n =? 160))%N.

Fixpoint trimStart (s : string) : string :=
  match s with
  | EmptyString => EmptyString
  | String c r => if isWhiteSpace c then trimStart r else s
  end.

Definition isEmpty (s : string) : bool :=
  match s with EmptyString => true | String _ _ => false end.

Fixpoint trimEnd (s : string) : string :=
  match s with
  | EmptyString => EmptyString
  | String c r =>
      let r' := trimEnd r in
      if isWhiteSpace c && isEmpty r' then EmptyString else String c r'
  end.

Definition trim (s : string) : string := trimEnd (trimStart s).

(** [String.prototype.toLowerCase] on code units below 256: the letters
    A-Z and the Latin-1 capitals U+00C0-U+00DE (U+00D7 excepted) move up
    by 32, every other code unit is kept.  Above that range the platform's
    function looks at the neighbours of a letter (the final sigma), so
    nothing stated of the program below relies on lowercasing a text piece
    by piece. *)
Definition toLowerCaseChar (c : ascii) : ascii :=
  let n := code c in
  if ((65 <=? n) && (n <=? 90)
      || (192 <=? n) && (n <=? 222) && negb (n =? 215))%N
  then ascii_of_N (n + 32) else c.

Fixpoint toLowerCase (s : string) : string :=
  match s with
  | EmptyString => EmptyString
  | String c r => String (toLowerCaseChar c) (toLowerCase r)
  end.

Fixpoint startsWith (s q : string) {struct q} : bool :=
  match q, s with
  | EmptyString, _ => true
  | String _ _, EmptyString => false
  | String b q', String a s' => Ascii.eqb a b && startsWith s' q'
  end.

(** [s.includes(q)]: [q] occurs in [s] at some position. *)
Fixpoint includes (s q : string) : bool :=
  startsWith s q ||
  match s with
  | EmptyString => false
  | String _ r => includes r q
  end.

(** The relation [includes] decides. *)
Definition isSubstring (q s : string) : Prop :=
  exists a b, s = a ++ q ++ b.

(** Truthiness of a string: [if (x)] and [!x]. *)
Definition truthy (s : string) : bool := negb (isEmpty s).

Definition allWhiteSpace (s : string) : Prop :=
  forall c, In c (list_ascii_of_string s) -> isWhiteSpace c = true.

End JsString.

(* ================================================================== *)
(** ** Numbers as text: [Number.prototype.toString] on integers *)

Module JsNumber.

Definition digitChar (d : N) : ascii := ascii_of_N (48 + d).

Definition isDigit (c : ascii) : bool :=
  let n := N_of_ascii c in ((48 <=? n) && (n <=? 57))%N.

Definition digitVal (c : ascii) : N := (N_of_ascii c - 48)%N.

(** The decimal digits of [n], most significant first, put before [acc]. *)
Fixpoint digitsFuel (fuel : nat) (n : N) (acc : string) : string :=
  match fuel with
  | O => acc
  | S f =>
      let acc' := String (digitChar (n mod 10)) acc in
      if (n <? 10)%N then acc' else digitsFuel f (n / 10) acc'
  end.

Definition natToString (n : N) : string :=
  digitsFuel (S (N.to_nat (N.size n))) n EmptyString.

(** [z.toString()] for an integer [z]: a minus sign for a negative value,
    then its decimal digits.  This is what the platform prints for every
    integer of magnitude up to 2^53, time values among them. *)
Definition toString (z : Z) : string :=
  match z with
  | Z0 => "0"
  | Zpos p => natToString (Npos p)
  | Zneg p => String "-" (natToString (Npos p))
  end.

(** Reads the digits at the head of [s] into the accumulator. *)
Fixpoint readDigits (s : string) (acc : N) : N * string :=
  match s with
  | EmptyString => (acc, s)
  | String c r =>
      if isDigit c then readDigits r (acc * 10 + digitVal c)%N else (acc, s)
  end.

(** Range of a time value (ECMAScript: 8.64e15 ms either side of the
    epoch); [Date.now()] returns one. *)
Definition isTimeValue (t : Z) : bool :=
  (-8640000000000000 <=? t) && (t <=? 8640000000000000).

End JsNumber.

(* ================================================================== *)
(** ** The data model *)

(** [interface Advertisement] of App.tsx. *)
Record Advertisement : Type := mkAd {
  id : string;
  imageUri : string;
  description : string;
  url : string;
  createdAt : Z
}.

(** [type Screen = 'Home' | 'Add' | 'Details']. *)
Inductive Screen : Type := Home | Add | Details.

Definition string_eqb (a b : string) : bool := String.eqb a b.

(* ================================================================== *)
(** ** JSON text: [JSON.stringify] and [JSON.parse] of the platform *)

Module Json.

Import JsString JsNumber.

(** A parsed JSON text.  A string is kept as its code units, since an
    escape can name any of the 65536; a numeral with a fraction or an
    exponent is kept as written. *)
Inductive value : Type :=
| Null
| Bool (b : bool)
| Num (z : Z)
| Real (lit : string)
| Str (u : list N)
| Arr (l : list value)
| Obj (l : list (list N * value)).

Inductive result (A : Type) : Type :=
| Ok (a : A)
| SyntaxError
| OutOfFuel.
Arguments Ok {A} a.
Arguments SyntaxError {A}.
Arguments OutOfFuel {A}.

Definition bind {A B} (r : result A) (k : A -> result B) : result B :=
  match r with
  | Ok a => k a
  | SyntaxError => SyntaxError
  | OutOfFuel => OutOfFuel
  end.

Notation "'let*' p ':=' r 'in' k" :=
  (bind r (fun p => k))
    (at level 10, p pattern, r at level 100, k at level 200).

Definition dquote : ascii := "034"%char.
Definition backslash : ascii := "092"%char.

(* ---------------- writing ---------------- *)

Definition hexChar (d : N) : ascii :=
  if (d <? 10)%N then ascii_of_N (48 + d) else ascii_of_N (87 + d).

(** QuoteJSONString, one code unit. *)
Definition escapeChar (c : ascii) : string :=
  let n := code c in
  if (n =? 34)%N then String backslash (String dquote EmptyString)
  else if (n =? 92)%N then String backslash (String backslash EmptyString)
  else if (n =? 8)%N then String backslash "b"
  else if (n =? 9)%N then String backslash "t"
  else if (n =? 10)%N then String backslash "n"
  else if (n =? 12)%N then String backslash "f"
  else if (n =? 13)%N then String backslash "r"
  else if (n <? 32)%N then
    String backslash
      (String "u" (String "0" (String "0"
         (String (hexChar (n / 16)) (String (hexChar (n mod 16))
            EmptyString)))))
  else String c EmptyString.

Fixpoint escape (s : string) : string :=
  match s with
  | EmptyString => EmptyString
  | String c r => escapeChar c ++ escape r
  end.

Definition quote (s : string) : string :=
  String dquote (escape s ++ String dquote EmptyString).

(** One record: its own properties in creation order, as the object
    literal of [addAdvertisement] lists them. *)
Definition stringifyAd (ad : Advertisement) : string :=
  "{" ++ quote "id" ++ ":" ++ quote (id ad)
  ++ "," ++ quote "imageUri" ++ ":" ++ quote (imageUri ad)
  ++ "," ++ quote "description" ++ ":" ++ quote (description ad)
  ++ "," ++ quote "url" ++ ":" ++ quote (url ad)
  ++ "," ++ quote "createdAt" ++ ":" ++ toString (createdAt ad)
  ++ "}".

Fixpoint stringifyElems (ads : list Advertisement) : string :=
  match ads with
  | [] => EmptyString
  | [ad] => stringifyAd ad
  | ad :: rest => stringifyAd ad ++ "," ++ stringifyElems rest
  end.

(** [JSON.stringify(ads)] for [ads : Advertisement[]]. *)
Definition stringify (ads : list Advertisement) : string :=
  "[" ++ stringifyElems ads ++ "]".

(* ---------------- reading ---------------- *)

Definition isJsonWs (c : ascii) : bool :=
  let n := code c in ((n =? 32) || (n =? 9) || (n =? 10) || (n =? 13))%N.

Fixpoint skipWs (s : string) : string :=
  match s with
  | EmptyString => EmptyString
  | String c r => if isJsonWs c then skipWs r else s
  end.

Definition hexVal (c : ascii) : option N :=
  let n := code c in
  if ((48 <=? n) && (n <=? 57))%N then Some (n - 48)%N
  else if ((97 <=? n) && (n <=? 102))%N then Some (n - 87)%N
  else if ((65 <=? n) && (n <=? 70))%N then Some (n - 55)%N
  else None.

Definition hex4 (a b c d : ascii) : option N :=
  match hexVal a, hexVal b, hexVal c, hexVal d with
  | Some x, Some y, Some z, Some w =>
      Some (((x * 16 + y) * 16 + z) * 16 + w)%N
  | _, _, _, _ => None
  end.

Definition simpleEscape (e : ascii) : option N :=
  let n := code e in
  if (n =? 34)%N then Some 34%N
  else if (n =? 92)%N then Some 92%N
  else if (n =? 47)%N then Some 47%N
  else if (n =? 98)%N then Some 8%N
  else if (n =? 102)%N then Some 12%N
  else if (n =? 110)%N then Some 10%N
  else if (n =? 114)%N then Some 13%N
  else if (n =? 116)%N then Some 9%N
  else None.

Definition consUnit (u : N) (r : option (list N * string))
  : option (list N * string) :=
  match r with
  | Some (us, rest) => Some (u :: us, rest)
  | None => None
  end.

(** The characters of a string literal after its opening quote, up to
    and including the closing one. *)
Fixpoint parseChars (s : string) : option (list N * string) :=
  match s with
  | EmptyString => None
  | String c r =>
      if (code c =? 34)%N then Some ([], r)
      else if (code c =? 92)%N then
        match r with
        | EmptyString => None
        | String e r1 =>
            match simpleEscape e with
            | Some u => consUnit u (parseChars r1)
            | None =>
                if (code e =? 117)%N then
                  match r1 with
                  | String h1 (String h2 (String h3 (String h4 r2))) =>
                      match hex4 h1 h2 h3 h4 with
                      | Some u => consUnit u (parseChars r2)
                      | None => None
                      end
                  | _ => None
                  end
                else None
            end
        end
      else if (code c <? 32)%N then None
      else consUnit (code c) (parseChars r)
  end.

(** At least one digit, then whatever follows. *)
Definition readDigits1 (s : string) : option (N * string) :=
  match s with
  | String c _ => if isDigit c then Some (readDigits s 0) else None
  | EmptyString => None
  end.

(** The rest of [s] after its first character, when that is code [n]. *)
Definition eat (n : N) (s : string) : option string :=
  match s with
  | String c r => if (code c =? n)%N then Some r else None
  | EmptyString => None
  end.

Definition parseFraction (s : string) : option (bool * string) :=
  match eat 46 s with
  | Some r =>
      match readDigits1 r with
      | Some (_, r') => Some (true, r')
      | None => None
      end
  | None => Some (false, s)
  end.

Definition parseExponent (s : string) : option (bool * string) :=
  match s with
  | String c r =>
      if ((code c =? 101) || (code c =? 69))%N then
        let r1 :=
          match r with
          | String sg r' =>
              if ((code sg =? 43) || (code sg =? 45))%N then r' else r
          | EmptyString => r
          end in
        match readDigits1 r1 with
        | Some (_, r') => Some (true, r')
        | None => None
        end
      else Some (false, s)
  | EmptyString => Some (false, s)
  end.

(** The integer part of a numeral: a zero, or a digit from 1 to 9 and the
    digits after it. *)
Definition parseInt (s : string) : option (N * string) :=
  match s with
  | String c r =>
      if (code c =? 48)%N then Some (0%N, r)
      else if isDigit c then Some (readDigits s 0)
      else None
  | EmptyString => None
  end.

(** A JSON numeral: an optional minus sign, the integer part, optionally
    a point and digits, optionally an exponent mark, a sign and digits. *)
Definition parseNumber (s : string) : option (value * string) :=
  let '(neg, s1) :=
    match eat 45 s with
    | Some r => (true, r)
    | None => (false, s)
    end in
  match parseInt s1 with
  | None => None
  | Some (n, r1) =>
      match parseFraction r1 with
      | None => None
      | Some (hasFrac, r2) =>
          match parseExponent r2 with
          | None => None
          | Some (hasExp, r3) =>
              if hasFrac || hasExp
              then Some (Real (substring 0 (length s - length r3) s), r3)
              else Some (Num (if neg then - Z.of_N n else Z.of_N n), r3)
          end
      end
  end.

(** A character after which a numeral cannot go on. *)
Definition endsNumeral (c : ascii) : bool :=
  negb (isDigit c)
  && negb ((code c =? 46) || (code c =? 101) || (code c =? 69))%N.

Definition ofOption {A} (o : option A) : result A :=
  match o with Some a => Ok a | None => SyntaxError end.

(** Consumes the word [w] at the head of [s]. *)
Definition expectWord (w : string) (v : value) (s : string)
  : result (value * string) :=
  if startsWith s w then Ok (v, substring (length w) (length s - length w) s)
  else SyntaxError.

Fixpoint parseValue (fuel : nat) (s : string) {struct fuel}
  : result (value * string) :=
  match fuel with
  | O => OutOfFuel
  | S f =>
      match skipWs s with
      | EmptyString => SyntaxError
      | String c r as s' =>
          if (code c =? 34)%N then
            let* (u, r') := ofOption (parseChars r) in Ok (Str u, r')
          else if (code c =? 91)%N then
            match eat 93 (skipWs r) with
            | Some r' => Ok (Arr [], r')
            | None => let* (vs, r') := parseElems f r in Ok (Arr vs, r')
            end
          else if (code c =? 123)%N then
            match eat 125 (skipWs r) with
            | Some r' => Ok (Obj [], r')
            | None => let* (ms, r') := parseMembers f r in Ok (Obj ms, r')
            end
          else if (code c =? 116)%N then expectWord "true" (Bool true) s'
          else if (code c =? 102)%N then expectWord "false" (Bool false) s'
          else if (code c =? 110)%N then expectWord "null" Null s'
          else ofOption (parseNumber s')
      end
  end

with parseElems (fuel : nat) (s : string) {struct fuel}
  : result (list value * string) :=
  match fuel with
  | O => OutOfFuel
  | S f =>
      let* (v, r) := parseValue f s in
      match eat 44 (skipWs r) with
      | Some r' => let* (vs, r'') := parseElems f r' in Ok (v :: vs, r'')
      | None =>
          match eat 93 (skipWs r) with
          | Some r' => Ok ([v], r')
          | None => SyntaxError
          end
      end
  end

with parseMembers (fuel : nat) (s : string) {struct fuel}
  : result (list (list N * value) * string) :=
  match fuel with
  | O => OutOfFuel
  | S f =>
      match eat 34 (skipWs s) with
      | None => SyntaxError
      | Some r =>
          let* (k, r1) := ofOption (parseChars r) in
          match eat 58 (skipWs r1) with
          | None => SyntaxError
          | Some r2 =>
              let* (v, r3) := parseValue f r2 in
              match eat 44 (skipWs r3) with
              | Some r4 =>
                  let* (ms, r5) := parseMembers f r4 in
                  Ok ((k, v) :: ms, r5)
              | None =>
                  match eat 125 (skipWs r3) with
                  | Some r4 => Ok ([(k, v)], r4)
                  | None => SyntaxError
                  end
              end
          end
      end
  end.

(** [JSON.parse(s)]: one value, white space around it, nothing else. *)
Definition parse (s : string) : result value :=
  let* (v, r) := parseValue (2 * length s + 2) s in
  if isEmpty (skipWs r) then Ok v else SyntaxError.

End Json.

(* ================================================================== *)
(** ** Rendering a creation time *)

Module JsDate.

Import JsNumber.

(** Civil date (year, month, day) of a day count from 1970-01-01 in the
    proleptic Gregorian calendar. *)
Definition civilFromDays (days : Z) : Z * Z * Z :=
  let z := days + 719468 in
  let era := z / 146097 in
  let doe := z - era * 146097 in
  let yoe := (doe - doe / 1460 + doe / 36524 - doe / 146096) / 365 in
  let doy := doe - (365 * yoe + yoe / 4 - yoe / 100) in
  let mp := (5 * doy + 2) / 153 in
  let d := doy - (153 * mp + 2) / 5 + 1 in
  let m := if mp <? 10 then mp + 3 else mp - 9 in
  let y := yoe + era * 400 in
  (if m <=? 2 then y + 1 else y, m, d).

Definition pad2 (n : Z) : string :=
  if n <? 10 then String "0" (toString n) else toString n.

(** Modelled from the spec: the locale formatting behind
    [new Date(createdAt).toLocaleDateString('pl-PL', {day: '2-digit',
    month: '2-digit', year: 'numeric', hour: '2-digit', minute:
    '2-digit'})] belongs to the platform and is missing from the sources.
    The spec fixes what it renders: the creation time as
    [DD.MM.YYYY HH:MM], day/month/year and 24-hour time, in the device's
    local time; [offsetMinutes] is the device's offset from UTC. *)
Definition toLocaleDateString (offsetMinutes : Z) (t : Z) : string :=
  let localMs := t + offsetMinutes * 60000 in
  let '(y, m, d) := civilFromDays (localMs / 86400000) in
  let msOfDay := localMs mod 86400000 in
  pad2 d ++ "." ++ pad2 m ++ "." ++ toString y ++ " "
  ++ pad2 (msOfDay / 3600000) ++ ":" ++ pad2 (msOfDay mod 3600000 / 60000).

End JsDate.

(* ================================================================== *)
(** ** The application state and its handlers *)

(** What [Alert.alert] was called with; the texts are those of App.tsx. *)
Inductive Alert : Type :=
| AlertSaveFailed     (* 'Blad', 'Nie udalo sie zapisac ogloszenia' *)
| AlertAdded          (* 'Sukces', 'Ogloszenie zostalo dodane' *)
| AlertConfirmDelete  (* 'Potwierdz usuniecie', with Anuluj / Usun *)
| AlertDeleted        (* 'Usunieto', 'Ogloszenie zostalo usuniete' *)
| AlertLimit          (* 'Limit osiagniety' *)
| AlertPickImage      (* 'Blad', 'Wybierz zdjecie' *)
| AlertEnterDescription (* 'Blad', 'Wpisz opis' *)
| AlertEnterUrl.      (* 'Blad', 'Wpisz link' *)

(** What [console.error] was called with. *)
Inductive LogEntry : Type :=
| LoadError   (* 'Blad ladowania danych:' *)
| SaveError.  (* 'Blad zapisywania danych:' *)

(** Whether the promise of an [AsyncStorage] call resolves or rejects. *)
Inductive IO : Type := Resolves | Rejects.

(** The [useState] cells of [App], the durable slot
    [AsyncStorage['advertisements']], and the alerts and console lines
    issued so far, oldest first. *)
Record AppState : Type := mkState {
  currentScreen : Screen;
  advertisements : list Advertisement;
  selectedAd : option Advertisement;
  loading : bool;
  slot : option string;
  alerts : list Alert;
  console : list LogEntry
}.

Definition setCurrentScreen (sc : Screen) (st : AppState) : AppState :=
  mkState sc (advertisements st) (selectedAd st) (loading st) (slot st)
          (alerts st) (console st).

Definition setAdvertisements (ads : list Advertisement) (st : AppState)
  : AppState :=
  mkState (currentScreen st) ads (selectedAd st) (loading st) (slot st)
          (alerts st) (console st).

Definition setSelectedAd (ad : option Advertisement) (st : AppState)
  : AppState :=
  mkState (currentScreen st) (advertisements st) ad (loading st) (slot st)
          (alerts st) (console st).

Definition setLoading (b : bool) (st : AppState) : AppState :=
  mkState (currentScreen st) (advertisements st) (selectedAd st) b (slot st)
          (alerts st) (console st).

(** A resolved [AsyncStorage.setItem('advertisements', text)]. *)
Definition setItem (text : string) (st : AppState) : AppState :=
  mkState (currentScreen st) (advertisements st) (selectedAd st) (loading st)
          (Some text) (alerts st) (console st).

Definition alert (a : Alert) (st : AppState) : AppState :=
  mkState (currentScreen st) (advertisements st) (selectedAd st) (loading st)
          (slot st) (alerts st ++ [a]) (console st).

Definition consoleError (e : LogEntry) (st : AppState) : AppState :=
  mkState (currentScreen st) (advertisements st) (selectedAd st) (loading st)
          (slot st) (alerts st) (console st ++ [e]).

(** The state [App] mounts with, over whatever the slot holds. *)
Definition initialState (stored : option string) : AppState :=
  mkState Home [] None true stored [] [].

(* ---------------- reading the slot ---------------- *)

Definition unitsToString (u : list N) : option string :=
  fold_right
    (fun n acc =>
       match acc with
       | Some s => if (n <? 256)%N then Some (String (ascii_of_N n) s) else None
       | None => None
       end)
    (Some EmptyString) u.

Definition stringToUnits (s : string) : list N :=
  map JsString.code (list_ascii_of_string s).

Definition keyIs (name : string) (k : list N) : bool :=
  if list_eq_dec N.eq_dec k (stringToUnits name) then true else false.

(** The parsed value seen at the type [Advertisement]: an object with the
    five properties that [addAdvertisement] creates, in that order, four
    strings of code units below 256 and a time value. *)
Definition asAdvertisement (v : Json.value) : option Advertisement :=
  match v with
  | Json.Obj [(k1, Json.Str a); (k2, Json.Str b); (k3, Json.Str c);
              (k4, Json.Str d); (k5, Json.Num t)] =>
      if keyIs "id" k1 && keyIs "imageUri" k2 && keyIs "description" k3
         && keyIs "url" k4 && keyIs "createdAt" k5 && JsNumber.isTimeValue t
      then
        match unitsToString a, unitsToString b, unitsToString c,
              unitsToString d with
        | Some a', Some b', Some c', Some d' => Some (mkAd a' b' c' d' t)
        | _, _, _, _ => None
        end
      else None
  | _ => None
  end.

Fixpoint asAdvertisementList (l : list Json.value)
  : option (list Advertisement) :=
  match l with
  | [] => Some []
  | v :: rest =>
      match asAdvertisement v, asAdvertisementList rest with
      | Some ad, Some ads => Some (ad :: ads)
      | _, _ => None
      end
  end.

(** The parsed value seen at the type [Advertisement[]], the type that
    [setAdvertisements] is declared with. *)
Definition asAdvertisements (v : Json.value) : option (list Advertisement) :=
  match v with
  | Json.Arr l => asAdvertisementList l
  | _ => None
  end.

(** The value that [JSON.parse] builds from the text of one record. *)
Definition valueOfAdvertisement (ad : Advertisement) : Json.value :=
  Json.Obj
    [(stringToUnits "id", Json.Str (stringToUnits (id ad)));
     (stringToUnits "imageUri", Json.Str (stringToUnits (imageUri ad)));
     (stringToUnits "description", Json.Str (stringToUnits (description ad)));
     (stringToUnits "url", Json.Str (stringToUnits (url ad)));
     (stringToUnits "createdAt", Json.Num (createdAt ad))].

(** Every [createdAt] of the list is a time value, as a reading of
    [Date.now()] is. *)
Definition timeValues (ads : list Advertisement) : Prop :=
  Forall (fun ad => JsNumber.isTimeValue (createdAt ad) = true) ads.

(** How [loadAdvertisements] ends.  [JSON.parse] returns a value of any
    shape and [setAdvertisements] takes it unchecked (lines 58-60).
    - [Typed st]: the state after the load; the list cell holds a list of
      records.
    - [NoList v]: the slot held the JSON text of [v], which is no array.
      [v] went into the list cell as it is, and the next render of the
      home screen throws at [advertisements.filter] (line 122).  What is
      logged and shown after that is the renderer's affair; the model does
      not follow the application there.
    - [Foreign l]: the slot held the JSON text of the array [l], which is
      not a list of records as this program writes them (other properties,
      another order, a numeral that is no time value, a code unit above
      255).  It went into the list cell as it is; the model does not
      follow the application there.
    - [Undetermined]: the parser of this model ran out of fuel. *)
Inductive Loaded : Type :=
| Typed (st : AppState)
| NoList (v : Json.value)
| Foreign (l : list Json.value)
| Undetermined.

(** [loadAdvertisements] (App.tsx, lines 55-66); [io] is the fate of
    [AsyncStorage.getItem]. *)
Definition loadAdvertisements (io : IO) (st : AppState) : Loaded :=
  match io with
  | Rejects => Typed (setLoading false (consoleError LoadError st))
  | Resolves =>
      match slot st with
      | None => Typed (setLoading false st)
      | Some stored =>
          if JsString.truthy stored then
            match Json.parse stored with
            | Json.Ok v =>
                match asAdvertisements v with
                | Some ads =>
                    Typed (setLoading false (setAdvertisements ads st))
                | None =>
                    match v with
                    | Json.Arr l => Foreign l
                    | _ => NoList v
                    end
                end
            | Json.SyntaxError =>
                Typed (setLoading false (consoleError LoadError st))
            | Json.OutOfFuel => Undetermined
            end
          else Typed (setLoading false st)
      end
  end.

(* ---------------- writing the slot ---------------- *)

(** [saveAdvertisements] (lines 68-76); [io] is the fate of
    [AsyncStorage.setItem]. *)
Definition saveAdvertisements (io : IO) (ads : list Advertisement)
           (st : AppState) : AppState :=
  match io with
  | Resolves => setAdvertisements ads (setItem (Json.stringify ads) st)
  | Rejects => alert AlertSaveFailed (consoleError SaveError st)
  end.

(** [addAdvertisement] (lines 78-90); [now1] and [now2] are its two
    readings of [Date.now()], the first for the id, the second for
    [createdAt]. *)
Definition addAdvertisement (imageUri description url : string)
           (now1 now2 : Z) (io : IO) (st : AppState) : AppState :=
  let newAd := mkAd (JsNumber.toString now1) imageUri description url now2 in
  let updatedAds := newAd :: advertisements st in
  let st := saveAdvertisements io updatedAds st in
  let st := setCurrentScreen Home st in
  alert AlertAdded st.

(** The answer to the confirmation dialog of [deleteAdvertisement]. *)
Inductive DialogAnswer : Type :=
| Cancel
| Confirm (io : IO).

(** [deleteAdvertisement] (lines 92-110): the dialog, and on 'Usun' its
    [onPress]. *)
Definition deleteAdvertisement (id0 : string) (answer : DialogAnswer)
           (st : AppState) : AppState :=
  let st := alert AlertConfirmDelete st in
  match answer with
  | Cancel => st
  | Confirm io =>
      let updatedAds :=
        filter (fun ad => negb (string_eqb (id ad) id0)) (advertisements st) in
      let st := saveAdvertisements io updatedAds st in
      let st := setCurrentScreen Home st in
      alert AlertDeleted st
  end.

(** [openDetails] (lines 112-115). *)
Definition openDetails (ad : Advertisement) (st : AppState) : AppState :=
  setCurrentScreen Details (setSelectedAd (Some ad) st).

(* ---------------- the home screen ---------------- *)

Section Search.

(** The platform's rendering of a creation time. *)
Variable toLocaleDateString : Z -> string.

(** The predicate of the [filter] call in [HomeScreen] (lines 122-139). *)
Definition matchesQuery (searchQuery : string) (ad : Advertisement) : bool :=
  if negb (JsString.truthy (JsString.trim searchQuery)) then true
  else
    let query := JsString.toLowerCase searchQuery in
    let description := JsString.toLowerCase (description ad) in
    let url := JsString.toLowerCase (url ad) in
    let date := toLocaleDateString (createdAt ad) in
    JsString.includes description query
    || JsString.includes url query
    || JsString.includes date query.

Definition filteredAdvertisements (searchQuery : string)
           (ads : list Advertisement) : list Advertisement :=
  filter (matchesQuery searchQuery) ads.

End Search.

(** The filter of the home screen over the list cell, with the rendering
    of [JsDate]: what the spec calls [search]. *)
Definition search (offsetMinutes : Z) (query : string) (st : AppState)
  : list Advertisement :=
  filteredAdvertisements (JsDate.toLocaleDateString offsetMinutes) query
                         (advertisements st).

(** [handleAddPress] (lines 141-151). *)
Definition handleAddPress (st : AppState) : AppState :=
  if (5 <=? List.length (advertisements st))%nat then alert AlertLimit st
  else setCurrentScreen Add st.

(* ---------------- the add screen ---------------- *)

(** [handleSave] (lines 277-291) over the three fields of the form. *)
Definition handleSave (imageUri description url : string) (now1 now2 : Z)
           (io : IO) (st : AppState) : AppState :=
  if negb (JsString.truthy imageUri) then alert AlertPickImage st
  else if negb (JsString.truthy (JsString.trim description))
  then alert AlertEnterDescription st
  else if negb (JsString.truthy (JsString.trim url))
  then alert AlertEnterUrl st
  else addAdvertisement imageUri (JsString.trim description)
                        (JsString.trim url) now1 now2 io st.

(* ---------------- what the user can do ---------------- *)

(** The presses each screen offers once loading is over: '+ Dodaj' and a
    card on the home screen, the back arrow and 'Zapisz' on the add form,
    the back arrow and the bin on the details screen. *)
Inductive Event : Type :=
| PressAdd
| PressCard (index : nat)
| PressBack
| PressSave (imageUri description url : string) (now1 now2 : Z) (io : IO)
| PressDelete (answer : DialogAnswer).

(** The handler that a press reaches on the screen that is shown; a press
    that the screen does not offer changes nothing. *)
Definition dispatch (st : AppState) (e : Event) : AppState :=
  match currentScreen st, e with
  | Home, PressAdd => handleAddPress st
  | Home, PressCard i =>
      match nth_error (advertisements st) i with
      | Some ad => openDetails ad st
      | None => st
      end
  | Add, PressBack => setCurrentScreen Home st
  | Add, PressSave imageUri description url now1 now2 io =>
      handleSave imageUri description url now1 now2 io st
  | Details, PressBack => setCurrentScreen Home st
  | Details, PressDelete answer =>
      match selectedAd st with
      | Some ad => deleteAdvertisement (id ad) answer st
      | None => st
      end
  | _, _ => st
  end.

Definition run (events : list Event) (st : AppState) : AppState :=
  fold_left dispatch events st.

(** A sequence of bare [addAdvertisement] calls, every write resolving;
    an entry is (imageUri, description, url, now1, now2). *)
Definition addAll (calls : list (string * string * string * Z * Z))
           (st : AppState) : AppState :=
  fold_left
    (fun st '(i, d, u, n1, n2) => addAdvertisement i d u n1 n2 Resolves st)
    calls st.

(* ---------------- vocabulary of the statements ---------------- *)

(** The clock reading that an entry of [addAll] gives for the id. *)
Definition idClock (call : string * string * string * Z * Z) : Z :=
  let '(_, _, _, n1, _) := call in n1.

(** [l1] is [l2] with some elements left out, the others in their order. *)
Inductive subsequence {A : Type} : list A -> list A -> Prop :=
| subseq_nil : subsequence [] []
| subseq_skip (x : A) (l1 l2 : list A) :
    subsequence l1 l2 -> subsequence l1 (x :: l2)
| subseq_keep (x : A) (l1 l2 : list A) :
    subsequence l1 l2 -> subsequence (x :: l1) (x :: l2).

(** What [deleteAdvertisement] tells about the removal.  It returns no
    value; the one report it makes is the notice 'Usunieto' it ends with. *)
Definition reportsRemoved (st : AppState) : bool :=
  match rev (alerts st) with
  | AlertDeleted :: _ => true
  | _ => false
  end.

(** Whether some record of the list carries the id. *)
Definition hasId (id0 : string) (ads : list Advertisement) : bool :=
  existsb (fun ad => string_eqb (id ad) id0) ads.

(** The states the home screen's guard keeps the application in: at most
    five records, and fewer than five while the add form is open. *)
Definition withinLimit (st : AppState) : Prop :=
  (List.length (advertisements st) <= 5)%nat
  /\ (currentScreen st = Add -> (List.length (advertisements st) < 5)%nat).

(** The clock readings that an event carries are time values. *)
Definition clockInRange (e : Event) : Prop :=
  match e with
  | PressSave _ _ _ _ now2 _ => JsNumber.isTimeValue now2 = true
  | _ => True
  end.

(** A match in the words of the specification: the query is blank, or its
    lowercase form occurs in the lowercase description, in the lowercase
    url, or in the rendered creation time.  [matchesQuery] is compared
    with it. *)
Definition matchesAsSpecified (rendering : Z -> string) (query : string)
           (ad : Advertisement) : Prop :=
  JsString.allWhiteSpace query
  \/ JsString.isSubstring (JsString.toLowerCase query)
                          (JsString.toLowerCase (description ad))
  \/ JsString.isSubstring (JsString.toLowerCase query)
                          (JsString.toLowerCase (url ad))
  \/ JsString.isSubstring (JsString.toLowerCase query)
                          (rendering (createdAt ad)).

(** Either storage outcome resolving. *)
Definition eitherResolves (a b : IO) : IO :=
  match a, b with
  | Rejects, Rejects => Rejects
  | _, _ => Resolves
  end.

(** The record that [addAdvertisement] builds for an entry of [addAll]. *)
Definition recordOf (call : string * string * string * Z * Z)
  : Advertisement :=
  let '(i, d, u, n1, n2) := call in mkAd (JsNumber.toString n1) i d u n2.

(* ---------------- sample data ---------------- *)

(** The record of the spec's search example, created 2024-03-12 09:00 at
    one hour east of UTC. *)
Definition jobA : Advertisement :=
  mkAd "1710230400000" "file:///img1.jpg" "Senior React Developer"
       "https://x.com/job1" 1710230400000.

(** A loaded application on the home screen holding [ads]. *)
Definition loadedState (ads : list Advertisement) : AppState :=
  mkState Home ads None false (Some (Json.stringify ads)) [] [].

Definition fiveCalls : list (string * string * string * Z * Z) :=
  [("file:///1.jpg", "Job A", "http://a", 1001, 1001);
   ("file:///2.jpg", "Job B", "http://b", 1002, 1002);
   ("file:///3.jpg", "Job C", "http://c", 1003, 1003);
   ("file:///4.jpg", "Job D", "http://d", 1004, 1004);
   ("file:///5.jpg", "Job E", "http://e", 1005, 1005)].

(** Six rounds of pressing '+ Dodaj' and saving a filled form. *)
Definition sixRounds : list Event :=
  flat_map
    (fun n => [PressAdd; PressSave "file:///x.jpg" "Job" "http://x" n n Resolves])
    [1001; 1002; 1003; 1004; 1005; 1006].

(* ================================================================== *)
(** ** The rest of the screens *)

(* ---------------- what the home screen shows ---------------- *)

(** What [HomeScreen] puts below the search box (lines 186-237): the
    spinner while loading, the hint of an empty store, the notice that
    nothing was found, or the cards of the filtered list. *)
Inductive HomeView : Type :=
| ShowsSpinner
| ShowsEmptyStore
| ShowsNoResults (searchQuery : string)
| ShowsCards (items : list Advertisement).

Section Home.

(** The platform's rendering of a creation time. *)
Variable toLocaleDateString : Z -> string.

Definition homeView (searchQuery : string) (st : AppState) : HomeView :=
  if loading st then ShowsSpinner
  else if (List.length (advertisements st) =? 0)%nat then ShowsEmptyStore
  else
    let shown :=
      filteredAdvertisements toLocaleDateString searchQuery
                             (advertisements st) in
    if (List.length shown =? 0)%nat then ShowsNoResults searchQuery
    else ShowsCards shown.

End Home.

(* ---------------- the form of the add screen ---------------- *)

(** The [useState] cells of [AddScreen] (lines 251-254). *)
Record AddForm : Type := mkForm {
  formImageUri : string;
  formDescription : string;
  formUrl : string;
  isPickingImage : bool
}.

(** The form as the add screen mounts it. *)
Definition emptyForm : AddForm :=
  mkForm EmptyString EmptyString EmptyString false.

Definition setImageUri (u : string) (f : AddForm) : AddForm :=
  mkForm u (formDescription f) (formUrl f) (isPickingImage f).

Definition setDescription (d : string) (f : AddForm) : AddForm :=
  mkForm (formImageUri f) d (formUrl f) (isPickingImage f).

Definition setUrl (u : string) (f : AddForm) : AddForm :=
  mkForm (formImageUri f) (formDescription f) u (isPickingImage f).

Definition setIsPickingImage (b : bool) (f : AddForm) : AddForm :=
  mkForm (formImageUri f) (formDescription f) (formUrl f) b.

(** How [ImagePicker.launchImageLibraryAsync] ends: the user cancelled, the
    picker returned its assets (the uris of them, or no array at all), or
    the promise rejected. *)
Inductive PickResult : Type :=
| PickCanceled
| PickAssets (uris : option (list string))
| PickThrows.

(** [handlePickImage] (lines 256-275).  The second component tells whether
    the failure was logged and the alert 'Nie udalo sie wybrac obrazu'
    shown. *)
Definition handlePickImage (r : PickResult) (f : AddForm) : AddForm * bool :=
  let f := setIsPickingImage true f in
  let '(f, failed) :=
    match r with
    | PickCanceled => (f, false)
    | PickAssets None => (f, false)
    | PickAssets (Some []) => (f, false)
    | PickAssets (Some (u :: _)) => (setImageUri u f, false)
    | PickThrows => (f, true)
    end in
  (setIsPickingImage false f, failed).

(** What the user does on the add form before saving. *)
Inductive FormEvent : Type :=
| PickImage (r : PickResult)
| TypeDescription (text : string)
| TypeUrl (text : string).

Definition formStep (f : AddForm) (e : FormEvent) : AddForm :=
  match e with
  | PickImage r => fst (handlePickImage r f)
  | TypeDescription text => setDescription text f
  | TypeUrl text => setUrl text f
  end.

Definition fillForm (events : list FormEvent) (f : AddForm) : AddForm :=
  fold_left formStep events f.

(** 'Zapisz' pressed on the form: [handleSave] over its cells. *)
Definition saveForm (f : AddForm) (now1 now2 : Z) (io : IO) (st : AppState)
  : AppState :=
  handleSave (formImageUri f) (formDescription f) (formUrl f) now1 now2 io st.

(** The uri that a pick hands to the form, if it hands one. *)
Definition pickedUri (e : FormEvent) : option string :=
  match e with
  | PickImage (PickAssets (Some (u :: _))) => Some u
  | _ => None
  end.

(* ---------------- further vocabulary ---------------- *)

(** A record as [handleSave] lets it through: an image, and a description
    and a url that are not empty and carry no white space at either end. *)
Definition savedByForm (ad : Advertisement) : Prop :=
  imageUri ad <> EmptyString
  /\ description ad <> EmptyString
  /\ url ad <> EmptyString
  /\ JsString.trim (description ad) = description ad
  /\ JsString.trim (url ad) = url ad.

(** The slot holds the text of the list in memory. *)
Definition slotInStep (st : AppState) : Prop :=
  slot st = Some (Json.stringify (advertisements st)).

(** On the details screen a record is selected and the store holds it. *)
Definition detailsShowStored (st : AppState) : Prop :=
  currentScreen st = Details ->
  exists ad, selectedAd st = Some ad /\ In ad (advertisements st).

(** A press that can change the list or the slot: a save, or a confirmed
    removal, with a write that resolves. *)
Definition writes (e : Event) : bool :=
  match e with
  | PressSave _ _ _ _ _ Resolves => true
  | PressDelete (Confirm Resolves) => true
  | _ => false
  end.

(** Two records with distinct ids, for the examples. *)
Definition jobB : Advertisement :=
  mkAd "1710316800000" "file:///img2.jpg" "Golang Engineer"
       "https://x.com/job2" 1710316800000.

(* ================================================================== *)
(** * Properties *)

(** ** Strings *)

Module JsStringFacts.

Import JsString.

Lemma startsWith_spec (s q : string) :
  startsWith s q = true <-> exists b, s = q ++ b.
Proof.
  revert s; induction q as [|c q IH]; intros s; simpl.
  - split; [intros _; exists s; reflexivity | reflexivity].
  - destruct s as [|a s]; simpl.
    + split; [discriminate | intros [b Hb]; discriminate].
    + rewrite andb_true_iff, Ascii.eqb_eq, IH. split.
      * intros [-> [b ->]]. now exists b.
      * intros [b Hb]. injection Hb as -> ->. split; [reflexivity | now exists b].
Qed.

Lemma includes_spec (s q : string) :
  includes s q = true <-> isSubstring q s.
Proof.
  unfold isSubstring. induction s as [|a s IH].
  - simpl. rewrite orb_false_r, startsWith_spec. split.
    + intros [b Hb]. now exists EmptyString, b.
    + intros [x [b Hb]]. destruct x; [now exists b | discriminate].
  - change (includes (String a s) q)
      with (startsWith (String a s) q || includes s q).
    rewrite orb_true_iff, startsWith_spec, IH. split.
    + intros [[b Hb] | [x [b Hb]]].
      * now exists EmptyString, b.
      * exists (String a x), b. simpl. now rewrite Hb.
    + intros [x [b Hb]]. destruct x as [|a' x]; simpl in Hb.
      * left. now exists b.
      * right. injection Hb as _ Hb. now exists x, b.
Qed.

Lemma includes_false (s q : string) :
  includes s q = false <-> ~ isSubstring q s.
Proof.
  rewrite <- includes_spec. destruct (includes s q); split; congruence.
Qed.

Lemma trimStart_empty (s : string) :
  trimStart s = EmptyString <-> allWhiteSpace s.
Proof.
  unfold allWhiteSpace. induction s as [|c s IH]; simpl.
  - split; [intros _ c [] | trivial].
  - destruct (isWhiteSpace c) eqn:Hc.
    + rewrite IH. split.
      * intros H x [<- | Hx]; auto.
      * intros H x Hx. apply H. now right.
    + split; [discriminate |].
      intros H. specialize (H c (or_introl eq_refl)). congruence.
Qed.

Lemma trimEnd_empty (s : string) :
  trimEnd s = EmptyString <-> allWhiteSpace s.
Proof.
  unfold allWhiteSpace. induction s as [|c s IH]; simpl.
  - split; [intros _ c [] | trivial].
  - destruct (isWhiteSpace c) eqn:Hc; simpl.
    + destruct (trimEnd s) eqn:Ht; simpl.
      * split; [| trivial]. intros _ x [<- | Hx]; auto.
        now apply (proj1 IH).
      * split; [discriminate |]. intros H.
        assert (Hs : forall x, In x (list_ascii_of_string s)
                               -> isWhiteSpace x = true)
          by (intros x Hx; apply H; now right).
        apply IH in Hs. discriminate.
    + split; [discriminate |].
      intros H. specialize (H c (or_introl eq_refl)). congruence.
Qed.

Lemma trimStart_head (s : string) :
  match trimStart s with
  | EmptyString => True
  | String c _ => isWhiteSpace c = false
  end.
Proof.
  induction s as [|c s IH]; simpl; [trivial |].
  destruct (isWhiteSpace c) eqn:Hc; [exact IH | exact Hc].
Qed.

(** A query trims to the empty string exactly when it holds white space
    only. *)
Lemma trim_empty (s : string) :
  trim s = EmptyString <-> allWhiteSpace s.
Proof.
  unfold trim. split.
  - intros H. apply trimEnd_empty in H. apply trimStart_empty.
    pose proof (trimStart_head s) as Hh.
    destruct (trimStart s) as [|c r]; [reflexivity |].
    specialize (H c (or_introl eq_refl)). congruence.
  - intros H. apply trimStart_empty in H. now rewrite H.
Qed.

Lemma truthy_trim_false (s : string) :
  truthy (trim s) = false <-> allWhiteSpace s.
Proof.
  split.
  - intros H. apply trim_empty. unfold truthy in H.
    destruct (trim s); [reflexivity | discriminate].
  - intros H. apply trim_empty in H. now rewrite H.
Qed.

End JsStringFacts.

(** ** Numbers as text *)

Module JsNumberFacts.

Import JsString JsNumber.

Lemma append_assoc (a b c : string) : (a ++ b) ++ c = a ++ (b ++ c).
Proof. induction a as [|x a IH]; simpl; [reflexivity | now rewrite IH]. Qed.

Lemma append_empty_r (a : string) : a ++ EmptyString = a.
Proof. induction a as [|x a IH]; simpl; [reflexivity | now rewrite IH]. Qed.

Lemma length_append (a b : string) :
  String.length (a ++ b) = (String.length a + String.length b)%nat.
Proof. induction a as [|x a IH]; simpl; [reflexivity | now rewrite IH]. Qed.

Lemma code_digitChar (d : N) : (d < 10)%N -> code (digitChar d) = (48 + d)%N.
Proof.
  intros H. unfold code, digitChar. apply N_ascii_embedding. lia.
Qed.

Lemma isDigit_digitChar (d : N) : (d < 10)%N -> isDigit (digitChar d) = true.
Proof.
  intros H. unfold isDigit. fold (code (digitChar d)).
  rewrite code_digitChar by assumption.
  apply andb_true_iff. split; apply N.leb_le; lia.
Qed.

Lemma digitVal_digitChar (d : N) : (d < 10)%N -> digitVal (digitChar d) = d.
Proof.
  intros H. unfold digitVal. fold (code (digitChar d)).
  rewrite code_digitChar by assumption. lia.
Qed.

Lemma digitsFuel_S (f : nat) (n : N) (acc : string) :
  digitsFuel (S f) n acc
  = if (n <? 10)%N then String (digitChar (n mod 10)) acc
    else digitsFuel f (n / 10) (String (digitChar (n mod 10)) acc).
Proof. reflexivity. Qed.

(** What [digitsFuel] writes with fuel to spare: a digit and further
    digits, no zero in front of a positive number, and [readDigits] gets
    the number back. *)
Lemma digitsFuel_spec (f : nat) :
  forall (n : N) (acc : string),
    (n < 2 ^ N.of_nat (S f))%N ->
    exists c ds,
      digitsFuel (S f) n acc = String c (ds ++ acc)
      /\ isDigit c = true
      /\ (n <> 0%N -> code c <> 48%N)
      /\ forall a rest,
          readDigits (String c (ds ++ rest)) a
          = readDigits rest (a * 10 ^ N.of_nat (S (String.length ds)) + n)%N.
Proof.
  assert (Hsmall : forall n acc, (n < 10)%N ->
    exists c ds,
      String (digitChar (n mod 10)) acc = String c (ds ++ acc)
      /\ isDigit c = true
      /\ (n <> 0%N -> code c <> 48%N)
      /\ forall a rest,
          readDigits (String c (ds ++ rest)) a
          = readDigits rest (a * 10 ^ N.of_nat (S (String.length ds)) + n)%N).
  { intros n acc Hn. rewrite N.mod_small by assumption.
    exists (digitChar n), EmptyString. repeat split.
    - now apply isDigit_digitChar.
    - intros Hn0 Hc. rewrite code_digitChar in Hc by assumption. lia.
    - intros a rest. simpl String.length. simpl append.
      cbn [readDigits]. rewrite isDigit_digitChar by assumption.
      rewrite digitVal_digitChar by assumption.
      f_equal; try (change (N.of_nat 1) with 1%N; rewrite N.pow_1_r; lia). }
  induction f as [|f IH]; intros n acc Hn.
  - rewrite digitsFuel_S. assert (H10 : (n < 10)%N) by (simpl in Hn; lia).
    apply N.ltb_lt in H10 as Hb. rewrite Hb. now apply Hsmall.
  - rewrite digitsFuel_S.
    destruct (n <? 10)%N eqn:Hb.
    + apply Hsmall. now apply N.ltb_lt.
    + apply N.ltb_ge in Hb.
      assert (Hdiv : (n / 10 < 2 ^ N.of_nat (S f))%N).
      { apply N.Div0.div_lt_upper_bound.
        replace (N.of_nat (S (S f))) with (N.succ (N.of_nat (S f))) in Hn
          by lia.
        rewrite N.pow_succ_r' in Hn. lia. }
      destruct (IH (n / 10)%N (String (digitChar (n mod 10)) acc) Hdiv)
        as (c & ds & Heq & Hc & Hnz & Hread).
      assert (Hmod : (n mod 10 < 10)%N) by (apply N.mod_lt; lia).
      exists c, (ds ++ String (digitChar (n mod 10)) EmptyString).
      repeat split.
      * rewrite Heq. f_equal. now rewrite append_assoc.
      * exact Hc.
      * intros _. apply Hnz. intros H0.
        apply N.div_small_iff in H0; lia.
      * intros a rest. rewrite append_assoc. simpl append.
        rewrite Hread. cbn [readDigits].
        rewrite isDigit_digitChar by assumption.
        rewrite digitVal_digitChar by assumption.
        f_equal. rewrite length_append. simpl String.length.
        replace (N.of_nat (S (String.length ds + 1)))
          with (N.succ (N.of_nat (S (String.length ds)))) by lia.
        rewrite N.pow_succ_r'.
        pose proof (N.div_mod n 10 ltac:(lia)) as Hdm. lia.
Qed.

Lemma natToString_spec (n : N) :
  exists c ds,
    natToString n = String c ds
    /\ isDigit c = true
    /\ (n <> 0%N -> code c <> 48%N)
    /\ forall rest,
        readDigits (String c (ds ++ rest)) 0 = readDigits rest n.
Proof.
  unfold natToString.
  destruct (digitsFuel_spec (N.to_nat (N.size n)) n EmptyString)
    as (c & ds & Heq & Hc & Hnz & Hread).
  - pose proof (N.size_gt n) as Hs.
    eapply N.lt_le_trans; [exact Hs |].
    apply N.pow_le_mono_r; lia.
  - exists c, ds. rewrite Heq, append_empty_r. repeat split; try assumption.
    intros rest. rewrite Hread. f_equal.
Qed.

End JsNumberFacts.

(** ** JSON text *)

Module JsonFacts.

Import JsString JsNumber Json JsNumberFacts.

(** Reading back one escaped code unit. *)
Lemma parseChars_escapeChar (c : ascii) (tail : string) :
  parseChars (escapeChar c ++ tail) = consUnit (code c) (parseChars tail).
Proof.
  destruct c as [[] [] [] [] [] [] [] []]; reflexivity.
Qed.

Lemma stringToUnits_cons (c : ascii) (s : string) :
  stringToUnits (String c s) = code c :: stringToUnits s.
Proof. reflexivity. Qed.

Lemma parseChars_escape (s rest : string) :
  parseChars (escape s ++ String dquote rest) = Some (stringToUnits s, rest).
Proof.
  induction s as [|c s IH]; [reflexivity |].
  cbn [escape]. rewrite append_assoc, parseChars_escapeChar, IH.
  reflexivity.
Qed.

Lemma quote_append (s x : string) :
  quote s ++ x = String dquote (escape s ++ String dquote x).
Proof.
  unfold quote. cbn [append]. now rewrite append_assoc.
Qed.

Lemma parseValue_S (f : nat) (s : string) :
  parseValue (S f) s
  = match skipWs s with
    | EmptyString => SyntaxError
    | String c r as s' =>
        if (code c =? 34)%N then
          let* (u, r') := ofOption (parseChars r) in Ok (Str u, r')
        else if (code c =? 91)%N then
          match eat 93 (skipWs r) with
          | Some r' => Ok (Arr [], r')
          | None => let* (vs, r') := parseElems f r in Ok (Arr vs, r')
          end
        else if (code c =? 123)%N then
          match eat 125 (skipWs r) with
          | Some r' => Ok (Obj [], r')
          | None => let* (ms, r') := parseMembers f r in Ok (Obj ms, r')
          end
        else if (code c =? 116)%N then expectWord "true" (Bool true) s'
        else if (code c =? 102)%N then expectWord "false" (Bool false) s'
        else if (code c =? 110)%N then expectWord "null" Null s'
        else ofOption (parseNumber s')
    end.
Proof. reflexivity. Qed.

Lemma parseElems_S (f : nat) (s : string) :
  parseElems (S f) s
  = let* (v, r) := parseValue f s in
    match eat 44 (skipWs r) with
    | Some r' => let* (vs, r'') := parseElems f r' in Ok (v :: vs, r'')
    | None =>
        match eat 93 (skipWs r) with
        | Some r' => Ok ([v], r')
        | None => SyntaxError
        end
    end.
Proof. reflexivity. Qed.

Lemma parseMembers_S (f : nat) (s : string) :
  parseMembers (S f) s
  = match eat 34 (skipWs s) with
    | None => SyntaxError
    | Some r =>
        let* (k, r1) := ofOption (parseChars r) in
        match eat 58 (skipWs r1) with
        | None => SyntaxError
        | Some r2 =>
            let* (v, r3) := parseValue f r2 in
            match eat 44 (skipWs r3) with
            | Some r4 =>
                let* (ms, r5) := parseMembers f r4 in
                Ok ((k, v) :: ms, r5)
            | None =>
                match eat 125 (skipWs r3) with
                | Some r4 => Ok ([(k, v)], r4)
                | None => SyntaxError
                end
            end
        end
    end.
Proof. reflexivity. Qed.

(** A string literal reads back as the code units it was written from. *)
Lemma parseValue_quote (f : nat) (s rest : string) :
  parseValue (S f) (quote s ++ rest) = Ok (Str (stringToUnits s), rest).
Proof.
  rewrite parseValue_S, quote_append.
  change (skipWs (String dquote (escape s ++ String dquote rest)))
    with (String dquote (escape s ++ String dquote rest)).
  change (code dquote =? 34)%N with true. cbv iota.
  rewrite parseChars_escape. reflexivity.
Qed.

Lemma digit_code (c : ascii) :
  isDigit c = true -> (48 <= code c <= 57)%N.
Proof.
  unfold isDigit. fold (code c). rewrite andb_true_iff, !N.leb_le. tauto.
Qed.

Lemma code_neqb (c : ascii) (n : N) : code c <> n -> (code c =? n)%N = false.
Proof. apply N.eqb_neq. Qed.

Lemma readDigits_stop (c : ascii) (r : string) (n : N) :
  isDigit c = false -> readDigits (String c r) n = (n, String c r).
Proof. intros H. cbn [readDigits]. now rewrite H. Qed.

Lemma endsNumeral_spec (c : ascii) :
  endsNumeral c = true ->
  isDigit c = false /\ (code c =? 46)%N = false
  /\ ((code c =? 101) || (code c =? 69))%N = false.
Proof.
  unfold endsNumeral. rewrite andb_true_iff, !negb_true_iff.
  rewrite <- orb_assoc, orb_false_iff. tauto.
Qed.

Lemma parseFraction_stop (c : ascii) (r : string) :
  endsNumeral c = true -> parseFraction (String c r) = Some (false, String c r).
Proof.
  intros H. apply endsNumeral_spec in H as (_ & H46 & _).
  unfold parseFraction, eat. now rewrite H46.
Qed.

Lemma parseExponent_stop (c : ascii) (r : string) :
  endsNumeral c = true -> parseExponent (String c r) = Some (false, String c r).
Proof.
  intros H. apply endsNumeral_spec in H as (_ & _ & He).
  unfold parseExponent. now rewrite He.
Qed.

Lemma parseInt_natToString (p : positive) (c : ascii) (r : string) :
  endsNumeral c = true ->
  exists c0 ds,
    natToString (Npos p) = String c0 ds
    /\ isDigit c0 = true
    /\ parseInt (natToString (Npos p) ++ String c r)
       = Some (Npos p, String c r).
Proof.
  intros H. apply endsNumeral_spec in H as (Hd & _ & _).
  destruct (natToString_spec (Npos p)) as (c0 & ds & Heq & Hc0 & Hnz & Hread).
  exists c0, ds. repeat split; try assumption.
  rewrite Heq. cbn [append]. unfold parseInt.
  rewrite code_neqb by (apply Hnz; discriminate).
  rewrite Hc0, Hread. now rewrite readDigits_stop.
Qed.

(** A numeral written by [toString] reads back as the same integer. *)
Lemma parseNumber_toString (z : Z) (c : ascii) (r : string) :
  endsNumeral c = true ->
  parseNumber (toString z ++ String c r) = Some (Num z, String c r).
Proof.
  intros H. destruct z as [|p|p]; unfold parseNumber.
  - change (eat 45 (toString 0 ++ String c r)) with (@None string).
    cbv iota beta.
    change (parseInt (toString 0 ++ String c r))
      with (Some (0%N, String c r)).
    cbv iota beta.
    rewrite parseFraction_stop, parseExponent_stop by assumption.
    reflexivity.
  - destruct (parseInt_natToString p c r H) as (c0 & ds & Heq & Hc0 & Hint).
    cbn [toString].
    assert (Heat : eat 45 (natToString (N.pos p) ++ String c r) = None).
    { rewrite Heq. cbn [append]. unfold eat.
      rewrite code_neqb; [reflexivity |].
      apply digit_code in Hc0. lia. }
    rewrite Heat, Hint.
    rewrite parseFraction_stop, parseExponent_stop by assumption.
    reflexivity.
  - destruct (parseInt_natToString p c r H) as (c0 & ds & Heq & Hc0 & Hint).
    cbn [toString append].
    change (eat 45 (String "-" (natToString (N.pos p) ++ String c r)))
      with (Some (natToString (N.pos p) ++ String c r)).
    cbv iota beta. rewrite Hint.
    rewrite parseFraction_stop, parseExponent_stop by assumption.
    reflexivity.
Qed.

(** [toString] gives different integers different texts. *)
Lemma toString_inj (a b : Z) : toString a = toString b -> a = b.
Proof.
  intros H.
  assert (Hs : endsNumeral "}" = true) by reflexivity.
  pose proof (parseNumber_toString a "}" EmptyString Hs) as Ha.
  pose proof (parseNumber_toString b "}" EmptyString Hs) as Hb.
  rewrite H in Ha. rewrite Ha in Hb. now injection Hb.
Qed.

(** The first character of a numeral sends [parseValue] to
    [parseNumber]. *)
Lemma toString_head (z : Z) :
  exists c0 ds,
    toString z = String c0 ds
    /\ (code c0 = 45%N \/ isDigit c0 = true).
Proof.
  destruct z as [|p|p].
  - exists "0"%char, EmptyString. split; [reflexivity | now right].
  - destruct (natToString_spec (Npos p)) as (c0 & ds & Heq & Hc0 & _).
    exists c0, ds. split; [exact Heq | now right].
  - exists "-"%char, (natToString (Npos p)).
    split; [reflexivity | now left].
Qed.

Lemma parseValue_toString (f : nat) (z : Z) (c : ascii) (r : string) :
  endsNumeral c = true ->
  parseValue (S f) (toString z ++ String c r) = Ok (Num z, String c r).
Proof.
  intros H. rewrite parseValue_S.
  pose proof (parseNumber_toString z c r H) as Hnum.
  destruct (toString_head z) as (c0 & ds & Heq & Hc0).
  rewrite Heq in *. cbn [append] in *.
  assert (Hrange : (code c0 = 45 \/ 48 <= code c0 <= 57)%N).
  { destruct Hc0 as [? | Hd]; [now left | right; now apply digit_code]. }
  assert (Hws : isJsonWs c0 = false).
  { unfold isJsonWs. rewrite !code_neqb by lia. reflexivity. }
  cbn [skipWs]. rewrite Hws.
  rewrite !code_neqb by lia.
  rewrite Hnum. reflexivity.
Qed.

Lemma parseValue_object (f : nat) (r : string) :
  eat 125 (skipWs r) = None ->
  parseValue (S f) (String "{" r)
  = let* (ms, r') := parseMembers f r in Ok (Obj ms, r').
Proof. intros H. rewrite parseValue_S. simpl. now rewrite H. Qed.

Lemma parseValue_array (f : nat) (r : string) :
  eat 93 (skipWs r) = None ->
  parseValue (S f) (String "[" r)
  = let* (vs, r') := parseElems f r in Ok (Arr vs, r').
Proof. intros H. rewrite parseValue_S. simpl. now rewrite H. Qed.

Lemma skipWs_quote (s x : string) : skipWs (quote s ++ x) = quote s ++ x.
Proof. now rewrite quote_append. Qed.

Lemma eat_quote (s x : string) :
  eat 34 (quote s ++ x) = Some (escape s ++ String dquote x).
Proof. now rewrite quote_append. Qed.

(** A member whose value is a string, with further members after it. *)
Lemma parseMembers_string (f : nat) (k v tail : string) :
  parseMembers (S (S f))
               (quote k ++ String ":" (quote v ++ String "," tail))
  = let* (ms, r) := parseMembers (S f) tail in
    Ok ((stringToUnits k, Str (stringToUnits v)) :: ms, r).
Proof.
  rewrite parseMembers_S, skipWs_quote, eat_quote, parseChars_escape.
  cbn [ofOption bind].
  change (eat 58 (skipWs (String ":" (quote v ++ String "," tail))))
    with (Some (quote v ++ String "," tail)).
  cbv iota beta. rewrite parseValue_quote. cbn [bind].
  reflexivity.
Qed.

(** The last member, whose value is a numeral. *)
Lemma parseMembers_number (f : nat) (k : string) (t : Z) (tail : string) :
  parseMembers (S (S f))
               (quote k ++ String ":" (toString t ++ String "}" tail))
  = Ok ([(stringToUnits k, Num t)], tail).
Proof.
  rewrite parseMembers_S, skipWs_quote, eat_quote, parseChars_escape.
  cbn [ofOption bind].
  change (eat 58 (skipWs (String ":" (toString t ++ String "}" tail))))
    with (Some (toString t ++ String "}" tail)).
  cbv iota beta. rewrite parseValue_toString by reflexivity. cbn [bind].
  reflexivity.
Qed.

Lemma stringifyAd_append (ad : Advertisement) (rest : string) :
  stringifyAd ad ++ rest
  = String "{"
      (quote "id" ++ String ":" (quote (id ad) ++ String ","
      (quote "imageUri" ++ String ":" (quote (imageUri ad) ++ String ","
      (quote "description" ++ String ":" (quote (description ad) ++ String ","
      (quote "url" ++ String ":" (quote (url ad) ++ String ","
      (quote "createdAt" ++ String ":"
         (toString (createdAt ad) ++ String "}" rest)))))))))).
Proof.
  unfold stringifyAd. rewrite !append_assoc. reflexivity.
Qed.

(** The text of one record reads back as the value of that record. *)
Lemma parseValue_stringifyAd (f : nat) (ad : Advertisement) (rest : string) :
  parseValue (7 + f) (stringifyAd ad ++ rest)
  = Ok (valueOfAdvertisement ad, rest).
Proof.
  rewrite stringifyAd_append.
  change (7 + f)%nat with (S (S (S (S (S (S (S f))))))).
  rewrite parseValue_object by (now rewrite skipWs_quote, quote_append).
  rewrite !parseMembers_string, parseMembers_number.
  reflexivity.
Qed.

Lemma stringifyElems_cons (ad : Advertisement) (ads : list Advertisement) :
  ads <> [] ->
  stringifyElems (ad :: ads)
  = stringifyAd ad ++ String "," (stringifyElems ads).
Proof. destruct ads; [congruence | reflexivity]. Qed.

Lemma parseElems_stringify (ads : list Advertisement) :
  ads <> [] ->
  forall (fuel : nat) (rest : string),
    (List.length ads + 7 <= fuel)%nat ->
    parseElems fuel (stringifyElems ads ++ String "]" rest)
    = Ok (map valueOfAdvertisement ads, rest).
Proof.
  induction ads as [|ad ads IH]; [congruence |].
  intros _ fuel rest Hfuel. cbn [List.length] in Hfuel.
  destruct fuel as [|fuel]; [lia |].
  rewrite parseElems_S.
  destruct ads as [|ad' ads].
  - cbn [stringifyElems].
    replace fuel with (7 + (fuel - 7))%nat by (cbn [List.length] in Hfuel; lia).
    rewrite parseValue_stringifyAd. reflexivity.
  - rewrite stringifyElems_cons by discriminate.
    rewrite append_assoc. cbn [append].
    replace fuel with (7 + (fuel - 7))%nat at 1
      by (cbn [List.length] in Hfuel; lia).
    rewrite parseValue_stringifyAd. cbn [bind].
    change (eat 44 (skipWs (String ","
              (stringifyElems (ad' :: ads) ++ String "]" rest))))
      with (Some (stringifyElems (ad' :: ads) ++ String "]" rest)).
    cbv iota beta.
    rewrite IH by (try discriminate; cbn [List.length] in *; lia).
    reflexivity.
Qed.

Lemma length_stringifyAd (ad : Advertisement) :
  (2 <= String.length (stringifyAd ad))%nat.
Proof.
  rewrite <- (append_empty_r (stringifyAd ad)), stringifyAd_append.
  rewrite quote_append. cbn [String.length]. lia.
Qed.

Lemma length_stringifyElems (ads : list Advertisement) :
  (2 * List.length ads <= String.length (stringifyElems ads))%nat.
Proof.
  induction ads as [|ad ads IH]; [simpl; lia |].
  pose proof (length_stringifyAd ad) as Had.
  destruct ads as [|ad' ads].
  - cbn [stringifyElems List.length]. lia.
  - rewrite stringifyElems_cons by discriminate.
    rewrite length_append. cbn [String.length List.length] in *. lia.
Qed.

(** [JSON.parse] of what [JSON.stringify] wrote. *)
Lemma parse_stringify (ads : list Advertisement) :
  parse (stringify ads) = Ok (Arr (map valueOfAdvertisement ads)).
Proof.
  destruct ads as [|ad ads]; [reflexivity |].
  unfold parse, stringify.
  set (ads' := ad :: ads).
  assert (Hne : ads' <> []) by discriminate.
  pose proof (length_stringifyElems ads') as Hlen.
  assert (Hn : (1 <= List.length ads')%nat) by (cbn; lia).
  cbn [append]. cbn [String.length].
  rewrite length_append in *. cbn [String.length].
  replace (2 * S (String.length (stringifyElems ads') + 1) + 2)%nat
    with (S (2 * String.length (stringifyElems ads') + 5))%nat by lia.
  rewrite parseValue_array.
  - rewrite parseElems_stringify by (try assumption; lia). reflexivity.
  - subst ads'. destruct ads.
    + cbn [stringifyElems]. now rewrite stringifyAd_append.
    + rewrite stringifyElems_cons by discriminate.
      rewrite append_assoc. now rewrite stringifyAd_append.
Qed.

Lemma unitsToString_stringToUnits (s : string) :
  unitsToString (stringToUnits s) = Some s.
Proof.
  induction s as [|c s IH]; [reflexivity |].
  rewrite stringToUnits_cons. unfold unitsToString in *.
  cbn [fold_right]. rewrite IH.
  pose proof (N_ascii_bounded c) as Hb. unfold code.
  apply N.ltb_lt in Hb. rewrite Hb.
  now rewrite ascii_N_embedding.
Qed.

Lemma keyIs_refl (name : string) : keyIs name (stringToUnits name) = true.
Proof.
  unfold keyIs.
  destruct (list_eq_dec N.eq_dec (stringToUnits name) (stringToUnits name));
    congruence.
Qed.

Lemma asAdvertisement_value (ad : Advertisement) :
  isTimeValue (createdAt ad) = true ->
  asAdvertisement (valueOfAdvertisement ad) = Some ad.
Proof.
  intros Ht. unfold asAdvertisement, valueOfAdvertisement.
  rewrite !keyIs_refl, Ht, !unitsToString_stringToUnits.
  now destruct ad.
Qed.

Lemma asAdvertisements_values (ads : list Advertisement) :
  timeValues ads ->
  asAdvertisements (Arr (map valueOfAdvertisement ads)) = Some ads.
Proof.
  unfold timeValues. cbn [asAdvertisements].
  induction 1 as [|ad ads Had _ IH]; [reflexivity |].
  cbn [map asAdvertisementList].
  now rewrite asAdvertisement_value, IH.
Qed.

(* ---------------- the parser has fuel enough ---------------- *)

Lemma skipWs_length (s : string) :
  (String.length (skipWs s) <= String.length s)%nat.
Proof.
  induction s as [|c s IH]; cbn [skipWs]; [lia |].
  destruct (isJsonWs c); cbn [String.length] in *; lia.
Qed.

Lemma eat_length (n : N) (s r : string) :
  eat n s = Some r -> String.length s = S (String.length r).
Proof.
  unfold eat. destruct s as [|c s]; [discriminate |].
  destruct (code c =? n)%N; [| discriminate].
  intros H. injection H as ->. reflexivity.
Qed.

Lemma consUnit_some (u : N) (o : option (list N * string)) us r :
  consUnit u o = Some (us, r) -> exists us', o = Some (us', r).
Proof.
  destruct o as [[us' r']|]; cbn [consUnit]; [| discriminate].
  intros H. injection H as _ ->. now exists us'.
Qed.

Lemma parseChars_length (s : string) :
  forall us r, parseChars s = Some (us, r) ->
               (String.length r < String.length s)%nat.
Proof.
  remember (String.length s) as n eqn:Hn.
  revert s Hn. induction n as [n IH] using lt_wf_ind.
  intros s Hn us r H. destruct s as [|c s]; [discriminate |].
  cbn [parseChars] in H. cbn [String.length] in Hn.
  destruct (code c =? 34)%N.
  { injection H as _ ->. lia. }
  destruct (code c =? 92)%N.
  - destruct s as [|e s1]; [discriminate |].
    destruct (simpleEscape e).
    + apply consUnit_some in H as [us' H].
      apply (IH (String.length s1)) in H; cbn [String.length] in *; lia.
    + destruct (code e =? 117)%N; [| discriminate].
      destruct s1 as [|h1 [|h2 [|h3 [|h4 r2]]]]; try discriminate.
      destruct (hex4 h1 h2 h3 h4); [| discriminate].
      apply consUnit_some in H as [us' H].
      apply (IH (String.length r2)) in H; cbn [String.length] in *; lia.
  - destruct (code c <? 32)%N; [discriminate |].
    apply consUnit_some in H as [us' H].
    apply (IH (String.length s)) in H; lia.
Qed.

Lemma readDigits_length (s : string) :
  forall a, (String.length (snd (readDigits s a)) <= String.length s)%nat.
Proof.
  induction s as [|c s IH]; intros a; cbn [readDigits]; [simpl; lia |].
  destruct (isDigit c); [| simpl; lia].
  specialize (IH (a * 10 + digitVal c)%N). cbn [String.length]. lia.
Qed.

Lemma readDigits1_length (s : string) (n : N) (r : string) :
  readDigits1 s = Some (n, r) -> (String.length r < String.length s)%nat.
Proof.
  unfold readDigits1. destruct s as [|c s]; [discriminate |].
  destruct (isDigit c) eqn:Hc; [| discriminate].
  intros H. injection H as H. cbn [readDigits] in H. rewrite Hc in H.
  pose proof (readDigits_length s (digitVal c)) as Hl.
  change (0 * 10 + digitVal c)%N with (digitVal c) in H.
  rewrite H in Hl. cbn [snd String.length] in *. lia.
Qed.

Lemma parseFraction_length (s : string) (b : bool) (r : string) :
  parseFraction s = Some (b, r) -> (String.length r <= String.length s)%nat.
Proof.
  unfold parseFraction. destruct (eat 46 s) as [r0|] eqn:He.
  - apply eat_length in He.
    destruct (readDigits1 r0) as [[n r']|] eqn:Hd; [| discriminate].
    apply readDigits1_length in Hd.
    intros H. injection H as _ <-. lia.
  - intros H. injection H as _ <-. lia.
Qed.

Lemma parseExponent_length (s : string) (b : bool) (r : string) :
  parseExponent s = Some (b, r) -> (String.length r <= String.length s)%nat.
Proof.
  unfold parseExponent. destruct s as [|c s].
  { intros H. injection H as _ <-. lia. }
  destruct ((code c =? 101) || (code c =? 69))%N.
  - match goal with
    | |- context [readDigits1 ?x] =>
        assert (Hx : (String.length x <= String.length s)%nat);
        [| destruct (readDigits1 x) as [[n r']|] eqn:Hd; [| discriminate] ]
    end.
    + destruct s as [|sg s']; [lia |].
      destruct ((code sg =? 43) || (code sg =? 45))%N;
        cbn [String.length]; lia.
    + apply readDigits1_length in Hd.
      intros H. injection H as _ <-. cbn [String.length]. lia.
  - intros H. injection H as _ <-. lia.
Qed.

Lemma parseInt_length (s : string) (n : N) (r : string) :
  parseInt s = Some (n, r) -> (String.length r < String.length s)%nat.
Proof.
  unfold parseInt. destruct s as [|c s]; [discriminate |].
  destruct (code c =? 48)%N.
  { intros H. injection H as _ <-. cbn [String.length]. lia. }
  destruct (isDigit c) eqn:Hc; [| discriminate].
  intros H. apply (readDigits1_length (String c s) n r).
  unfold readDigits1. now rewrite Hc.
Qed.

Lemma parseNumber_length (s : string) (v : value) (r : string) :
  parseNumber s = Some (v, r) -> (String.length r < String.length s)%nat.
Proof.
  unfold parseNumber.
  destruct (eat 45 s) as [s1|] eqn:He.
  - apply eat_length in He.
    destruct (parseInt s1) as [[n r1]|] eqn:Hi; [| discriminate].
    destruct (parseFraction r1) as [[hf r2]|] eqn:Hf; [| discriminate].
    destruct (parseExponent r2) as [[he r3]|] eqn:Hx; [| discriminate].
    apply parseInt_length in Hi. apply parseFraction_length in Hf.
    apply parseExponent_length in Hx.
    destruct (hf || he); intros H; injection H as _ <-; lia.
  - destruct (parseInt s) as [[n r1]|] eqn:Hi; [| discriminate].
    destruct (parseFraction r1) as [[hf r2]|] eqn:Hf; [| discriminate].
    destruct (parseExponent r2) as [[he r3]|] eqn:Hx; [| discriminate].
    apply parseInt_length in Hi. apply parseFraction_length in Hf.
    apply parseExponent_length in Hx.
    destruct (hf || he); intros H; injection H as _ <-; lia.
Qed.

Lemma substring_length (s : string) :
  forall n m, (String.length (substring n m s) <= m)%nat.
Proof.
  induction s as [|c s IH]; intros n m.
  - destruct n, m; simpl; lia.
  - destruct n as [|n].
    + destruct m as [|m]; cbn [substring String.length]; [lia |].
      specialize (IH 0%nat m). lia.
    + cbn [substring]. apply IH.
Qed.

Lemma startsWith_length (s w : string) :
  startsWith s w = true -> (String.length w <= String.length s)%nat.
Proof.
  revert s. induction w as [|b w IH]; intros s; cbn [startsWith].
  - simpl; lia.
  - destruct s as [|a s]; [discriminate |].
    rewrite andb_true_iff. intros [_ H]. apply IH in H.
    cbn [String.length]. lia.
Qed.

Lemma expectWord_length (w : string) (v v' : value) (s r : string) :
  (0 < String.length w)%nat ->
  expectWord w v s = Ok (v', r) ->
  (String.length r < String.length s)%nat.
Proof.
  unfold expectWord. intros Hw.
  destruct (startsWith s w) eqn:Hs; [| discriminate].
  apply startsWith_length in Hs.
  intros H. injection H as _ <-.
  pose proof (substring_length s (String.length w)
                (String.length s - String.length w)) as Hl.
  lia.
Qed.

Ltac lengths :=
  repeat match goal with
    | H : eat _ _ = Some _ |- _ => apply eat_length in H
    | H : parseChars _ = Some _ |- _ => apply parseChars_length in H
    | H : parseNumber _ = Some _ |- _ => apply parseNumber_length in H
    | H : expectWord ?w ?v ?s = Ok (?v', ?r) |- _ =>
        let Hw := fresh in
        assert (Hw : (0 < String.length w)%nat) by (simpl; lia);
        apply (expectWord_length w v v' s r Hw) in H; clear Hw
    end;
  repeat match goal with
    | |- context [skipWs ?x] =>
        lazymatch goal with
        | _ : (String.length (skipWs x) <= String.length x)%nat |- _ => fail
        | _ => pose proof (skipWs_length x)
        end
    | _ : context [skipWs ?x] |- _ =>
        lazymatch goal with
        | _ : (String.length (skipWs x) <= String.length x)%nat |- _ => fail
        | _ => pose proof (skipWs_length x)
        end
    end;
  cbn [String.length] in *.

(** Every successful parse consumes input. *)
Lemma parse_progress (f : nat) :
  (forall s v r, parseValue f s = Ok (v, r) ->
                 (String.length r < String.length s)%nat)
  /\ (forall s vs r, parseElems f s = Ok (vs, r) ->
                     (String.length r < String.length s)%nat)
  /\ (forall s ms r, parseMembers f s = Ok (ms, r) ->
                     (String.length r < String.length s)%nat).
Proof.
  induction f as [|f (IHv & IHe & IHm)];
    [repeat split; intros; discriminate |].
  repeat split.
  - intros s v r H. rewrite parseValue_S in H.
    destruct (skipWs s) as [|c r0] eqn:Hs; [discriminate |].
    pose proof (skipWs_length s) as Hl. rewrite Hs in Hl.
    cbv zeta in H.
    destruct (code c =? 34)%N.
    { destruct (parseChars r0) as [[u r']|] eqn:Hc; [| discriminate].
      cbn [ofOption bind] in H. injection H as _ <-. lengths. lia. }
    destruct (code c =? 91)%N.
    { destruct (eat 93 (skipWs r0)) as [r'|] eqn:He.
      - injection H as _ <-. lengths. lia.
      - destruct (parseElems f r0) as [[vs r']| |] eqn:Hp; try discriminate.
        cbn [bind] in H. injection H as _ <-. apply IHe in Hp.
        cbn [String.length] in *. lia. }
    destruct (code c =? 123)%N.
    { destruct (eat 125 (skipWs r0)) as [r'|] eqn:He.
      - injection H as _ <-. lengths. lia.
      - destruct (parseMembers f r0) as [[ms r']| |] eqn:Hp;
          try discriminate.
        cbn [bind] in H. injection H as _ <-. apply IHm in Hp.
        cbn [String.length] in *. lia. }
    destruct (code c =? 116)%N; [lengths; lia |].
    destruct (code c =? 102)%N; [lengths; lia |].
    destruct (code c =? 110)%N; [lengths; lia |].
    destruct (parseNumber (String c r0)) as [[v' r']|] eqn:Hn;
      [| discriminate].
    cbn [ofOption] in H. injection H as _ <-. lengths. lia.
  - intros s vs r H. rewrite parseElems_S in H.
    destruct (parseValue f s) as [[v r0]| |] eqn:Hv; try discriminate.
    cbn [bind] in H. apply IHv in Hv.
    destruct (eat 44 (skipWs r0)) as [r1|] eqn:He.
    + destruct (parseElems f r1) as [[vs' r2]| |] eqn:Hp; try discriminate.
      cbn [bind] in H. injection H as _ <-. apply IHe in Hp.
      lengths. lia.
    + destruct (eat 93 (skipWs r0)) as [r1|] eqn:He'; [| discriminate].
      injection H as _ <-. lengths. lia.
  - intros s ms r H. rewrite parseMembers_S in H.
    destruct (eat 34 (skipWs s)) as [r0|] eqn:He0; [| discriminate].
    destruct (parseChars r0) as [[k r1]|] eqn:Hc; [| discriminate].
    cbn [ofOption bind] in H.
    destruct (eat 58 (skipWs r1)) as [r2|] eqn:He1; [| discriminate].
    destruct (parseValue f r2) as [[v r3]| |] eqn:Hv; try discriminate.
    cbn [bind] in H. apply IHv in Hv.
    destruct (eat 44 (skipWs r3)) as [r4|] eqn:He2.
    + destruct (parseMembers f r4) as [[ms' r5]| |] eqn:Hp;
        try discriminate.
      cbn [bind] in H. injection H as _ <-. apply IHm in Hp.
      lengths. lia.
    + destruct (eat 125 (skipWs r3)) as [r4|] eqn:He3; [| discriminate].
      injection H as _ <-. lengths. lia.
Qed.

(** With twice the length of the text as fuel, no parse runs out. *)
Lemma parse_fuel (f : nat) :
  (forall s, (2 * String.length s + 1 <= f)%nat ->
             parseValue f s <> OutOfFuel)
  /\ (forall s, (2 * String.length s + 2 <= f)%nat ->
                parseElems f s <> OutOfFuel)
  /\ (forall s, (2 * String.length s + 2 <= f)%nat ->
                parseMembers f s <> OutOfFuel).
Proof.
  induction f as [|f (IHv & IHe & IHm)];
    [repeat split; intros; lia |].
  destruct (parse_progress f) as (Pv & Pe & Pm).
  repeat split.
  - intros s Hf. rewrite parseValue_S.
    destruct (skipWs s) as [|c r0] eqn:Hs; [discriminate |].
    pose proof (skipWs_length s) as Hl. rewrite Hs in Hl.
    cbn [String.length] in Hl. cbv zeta.
    destruct (code c =? 34)%N.
    { destruct (parseChars r0) as [[u r']|]; discriminate. }
    destruct (code c =? 91)%N.
    { destruct (eat 93 (skipWs r0)); [discriminate |].
      specialize (IHe r0 ltac:(lia)).
      destruct (parseElems f r0) as [[vs r']| |]; cbn [bind]; congruence. }
    destruct (code c =? 123)%N.
    { destruct (eat 125 (skipWs r0)); [discriminate |].
      specialize (IHm r0 ltac:(lia)).
      destruct (parseMembers f r0) as [[ms r']| |]; cbn [bind]; congruence. }
    unfold expectWord.
    destruct (code c =? 116)%N; [destruct (startsWith _ _); discriminate |].
    destruct (code c =? 102)%N; [destruct (startsWith _ _); discriminate |].
    destruct (code c =? 110)%N; [destruct (startsWith _ _); discriminate |].
    destruct (parseNumber (String c r0)) as [[v' r']|]; discriminate.
  - intros s Hf. rewrite parseElems_S.
    specialize (IHv s ltac:(lia)).
    destruct (parseValue f s) as [[v r0]| |] eqn:Hv; cbn [bind];
      try congruence.
    apply Pv in Hv.
    destruct (eat 44 (skipWs r0)) as [r1|] eqn:He.
    + lengths. specialize (IHe r1 ltac:(lia)).
      destruct (parseElems f r1) as [[vs' r2]| |]; cbn [bind]; congruence.
    + destruct (eat 93 (skipWs r0)); discriminate.
  - intros s Hf. rewrite parseMembers_S.
    destruct (eat 34 (skipWs s)) as [r0|] eqn:He0; [| discriminate].
    destruct (parseChars r0) as [[k r1]|] eqn:Hc; [| discriminate].
    cbn [ofOption bind].
    destruct (eat 58 (skipWs r1)) as [r2|] eqn:He1; [| discriminate].
    lengths.
    specialize (IHv r2 ltac:(lia)).
    destruct (parseValue f r2) as [[v r3]| |] eqn:Hv; cbn [bind];
      try congruence.
    apply Pv in Hv.
    destruct (eat 44 (skipWs r3)) as [r4|] eqn:He2.
    + lengths. specialize (IHm r4 ltac:(lia)).
      destruct (parseMembers f r4) as [[ms' r5]| |]; cbn [bind]; congruence.
    + destruct (eat 125 (skipWs r3)); discriminate.
Qed.

(** [JSON.parse] of the model decides every text: a value or a syntax
    error. *)
Lemma parse_decides (s : string) : parse s <> OutOfFuel.
Proof.
  unfold parse.
  destruct (parse_fuel (2 * String.length s + 2)) as (Hv & _ & _).
  specialize (Hv s ltac:(lia)).
  destruct (parseValue (2 * String.length s + 2) s) as [[v r]| |];
    cbn [bind]; try congruence.
  destruct (isEmpty (skipWs r)); discriminate.
Qed.

End JsonFacts.

(** ** The handlers *)

Module AppFacts.

Lemma filter_subsequence {A : Type} (p : A -> bool) (l : list A) :
  subsequence (filter p l) l.
Proof.
  induction l as [|x l IH]; cbn [filter]; [constructor |].
  destruct (p x); now constructor.
Qed.

Lemma filter_id {A : Type} (p : A -> bool) (l : list A) :
  (forall x, In x l -> p x = true) -> filter p l = l.
Proof.
  induction l as [|x l IH]; intros H; cbn [filter]; [reflexivity |].
  rewrite (H x (or_introl eq_refl)). f_equal.
  apply IH. intros y Hy. apply H. now right.
Qed.

Lemma filter_idem {A : Type} (p : A -> bool) (l : list A) :
  filter p (filter p l) = filter p l.
Proof.
  apply filter_id. intros x Hx. now apply filter_In in Hx.
Qed.

Lemma filter_length_le {A : Type} (p : A -> bool) (l : list A) :
  (List.length (filter p l) <= List.length l)%nat.
Proof.
  induction l as [|x l IH]; cbn [filter]; [lia |].
  destruct (p x); cbn [List.length]; lia.
Qed.

Lemma hasId_false (id0 : string) (ads : list Advertisement) :
  hasId id0 ads = false <-> forall ad, In ad ads -> id ad <> id0.
Proof.
  unfold hasId. induction ads as [|a ads IH]; cbn [existsb].
  - split; [intros _ ad [] | reflexivity].
  - rewrite orb_false_iff, IH. unfold string_eqb.
    rewrite String.eqb_neq. split.
    + intros [Ha H] ad [<- | Hin]; auto.
    + intros H. split; [apply H; now left |].
      intros ad Hin. apply H. now right.
Qed.

Lemma advertisements_save (io : IO) (ads : list Advertisement)
      (st : AppState) :
  advertisements (saveAdvertisements io ads st)
  = match io with Resolves => ads | Rejects => advertisements st end.
Proof. now destruct io. Qed.

Lemma slot_save (io : IO) (ads : list Advertisement) (st : AppState) :
  slot (saveAdvertisements io ads st)
  = match io with
    | Resolves => Some (Json.stringify ads)
    | Rejects => slot st
    end.
Proof. now destruct io. Qed.

Lemma advertisements_add (i d u : string) (n1 n2 : Z) (io : IO)
      (st : AppState) :
  advertisements (addAdvertisement i d u n1 n2 io st)
  = match io with
    | Resolves => mkAd (JsNumber.toString n1) i d u n2 :: advertisements st
    | Rejects => advertisements st
    end.
Proof. now destruct io. Qed.

Lemma slot_add (i d u : string) (n1 n2 : Z) (io : IO) (st : AppState) :
  slot (addAdvertisement i d u n1 n2 io st)
  = match io with
    | Resolves =>
        Some (Json.stringify
                (mkAd (JsNumber.toString n1) i d u n2 :: advertisements st))
    | Rejects => slot st
    end.
Proof. now destruct io. Qed.

Lemma advertisements_delete (id0 : string) (io : IO) (st : AppState) :
  advertisements (deleteAdvertisement id0 (Confirm io) st)
  = match io with
    | Resolves =>
        filter (fun ad => negb (string_eqb (id ad) id0)) (advertisements st)
    | Rejects => advertisements st
    end.
Proof. now destruct io. Qed.

Lemma slot_delete (id0 : string) (io : IO) (st : AppState) :
  slot (deleteAdvertisement id0 (Confirm io) st)
  = match io with
    | Resolves =>
        Some (Json.stringify
                (filter (fun ad => negb (string_eqb (id ad) id0))
                        (advertisements st)))
    | Rejects => slot st
    end.
Proof. now destruct io. Qed.

Lemma filter_absent (id0 : string) (ads : list Advertisement) :
  hasId id0 ads = false ->
  filter (fun ad => negb (string_eqb (id ad) id0)) ads = ads.
Proof.
  intros H. apply filter_id. intros ad Hin.
  apply negb_true_iff. unfold string_eqb. apply String.eqb_neq.
  now apply (proj1 (hasId_false id0 ads) H).
Qed.

(** The text that [saveAdvertisements] writes loads back as the list it
    was written from. *)
Lemma load_stringify (ads : list Advertisement) (st : AppState) :
  timeValues ads ->
  slot st = Some (Json.stringify ads) ->
  loadAdvertisements Resolves st
  = Typed (setLoading false (setAdvertisements ads st)).
Proof.
  intros Ht Hs. unfold loadAdvertisements. rewrite Hs.
  change (JsString.truthy (Json.stringify ads)) with true. cbv iota.
  rewrite JsonFacts.parse_stringify.
  now rewrite JsonFacts.asAdvertisements_values.
Qed.

Lemma dispatch_withinLimit (st : AppState) (e : Event) :
  withinLimit st -> withinLimit (dispatch st e).
Proof.
  unfold withinLimit. intros [Hle Hadd].
  unfold dispatch.
  destruct (currentScreen st) eqn:Hsc, e;
    try (rewrite Hsc; split; [assumption | assumption || discriminate]).
  - (* Home, PressAdd *)
    unfold handleAddPress.
    destruct (5 <=? List.length (advertisements st))%nat eqn:H5.
    + cbn. rewrite Hsc. split; [assumption | discriminate].
    + apply Nat.leb_gt in H5. cbn. split; [lia | intros _; lia].
  - (* Home, PressCard *)
    destruct (nth_error (advertisements st) index);
      [| rewrite Hsc; split; [assumption | discriminate]].
    cbn. split; [assumption | discriminate].
  - (* Add, PressBack *)
    cbn. split; [assumption | discriminate].
  - (* Add, PressSave *)
    specialize (Hadd eq_refl). unfold handleSave.
    repeat match goal with
           | |- context [if ?b then _ else _] =>
               destruct b; [cbn; split; [assumption | intros _; lia] |]
           end.
    split.
    + rewrite advertisements_add. destruct io; cbn [List.length]; lia.
    + cbn. discriminate.
  - (* Details, PressBack *)
    cbn. split; [assumption | discriminate].
  - (* Details, PressDelete *)
    destruct (selectedAd st) as [ad|];
      [| rewrite Hsc; split; [assumption | discriminate]].
    destruct answer as [|io].
    + cbn. rewrite Hsc. split; [assumption | discriminate].
    + split.
      * rewrite advertisements_delete. destruct io; [| assumption].
        pose proof (filter_length_le
                      (fun a => negb (string_eqb (id a) (id ad)))
                      (advertisements st)). lia.
      * cbn. discriminate.
Qed.

Lemma run_withinLimit (events : list Event) (st : AppState) :
  withinLimit st -> withinLimit (run events st).
Proof.
  unfold run. revert st.
  induction events as [|e events IH]; intros st H; cbn [fold_left];
    [assumption |].
  apply IH. now apply dispatch_withinLimit.
Qed.

Lemma asAdvertisement_timeValue (v : Json.value) (ad : Advertisement) :
  asAdvertisement v = Some ad -> JsNumber.isTimeValue (createdAt ad) = true.
Proof.
  unfold asAdvertisement.
  destruct v as [| | | | |l|l]; try discriminate.
  destruct l as [|[k1 [| | | |a| |]] l]; try discriminate.
  destruct l as [|[k2 [| | | |b| |]] l]; try discriminate.
  destruct l as [|[k3 [| | | |c| |]] l]; try discriminate.
  destruct l as [|[k4 [| | | |d| |]] l]; try discriminate.
  destruct l as [|[k5 [| |t| | | |]] l]; try discriminate.
  destruct l; try discriminate.
  destruct (JsNumber.isTimeValue t) eqn:Ht;
    [| rewrite andb_false_r; discriminate].
  destruct (keyIs "id" k1 && keyIs "imageUri" k2 && keyIs "description" k3
            && keyIs "url" k4 && keyIs "createdAt" k5 && true);
    [| discriminate].
  destruct (unitsToString a), (unitsToString b), (unitsToString c),
    (unitsToString d); try discriminate.
  intros H. injection H as <-. exact Ht.
Qed.

Lemma asAdvertisements_timeValues (v : Json.value)
      (ads : list Advertisement) :
  asAdvertisements v = Some ads -> timeValues ads.
Proof.
  unfold asAdvertisements, timeValues.
  destruct v as [| | | | |l|]; try discriminate.
  revert ads. induction l as [|x l IH]; intros ads; cbn [asAdvertisementList].
  - intros H. injection H as <-. constructor.
  - destruct (asAdvertisement x) as [ad|] eqn:Hx; [| discriminate].
    destruct (asAdvertisementList l) as [ads'|]; [| discriminate].
    intros H. injection H as <-. constructor.
    + now apply (asAdvertisement_timeValue x).
    + now apply IH.
Qed.

(** A load leaves time values in the list. *)
Lemma load_timeValues (io : IO) (st st' : AppState) :
  timeValues (advertisements st) ->
  loadAdvertisements io st = Typed st' ->
  timeValues (advertisements st').
Proof.
  intros Ht. unfold loadAdvertisements.
  destruct io; [| intros H; injection H as <-; exact Ht].
  destruct (slot st) as [text|]; [| intros H; injection H as <-; exact Ht].
  destruct (JsString.truthy text);
    [| intros H; injection H as <-; exact Ht].
  destruct (Json.parse text) as [v| |]; try discriminate.
  - destruct (asAdvertisements v) as [ads|] eqn:Hv;
      [| destruct v; discriminate].
    intros H. injection H as <-. cbn.
    now apply (asAdvertisements_timeValues v).
  - intros H. injection H as <-. exact Ht.
Qed.

(** So does every press whose clock readings are time values. *)
Lemma dispatch_timeValues (st : AppState) (e : Event) :
  clockInRange e ->
  timeValues (advertisements st) ->
  timeValues (advertisements (dispatch st e)).
Proof.
  unfold timeValues. intros He Ht. unfold dispatch.
  destruct (currentScreen st), e; try assumption.
  - unfold handleAddPress.
    destruct (5 <=? List.length (advertisements st))%nat; assumption.
  - destruct (nth_error (advertisements st) index); assumption.
  - unfold handleSave.
    repeat match goal with
           | |- context [if ?b then _ else _] => destruct b; [assumption |]
           end.
    rewrite advertisements_add. destruct io; [| assumption].
    constructor; assumption.
  - destruct (selectedAd st) as [ad|]; [| assumption].
    destruct answer as [|io]; [assumption |].
    rewrite advertisements_delete. destruct io; [| assumption].
    apply Forall_forall. intros x Hx. apply filter_In in Hx as [Hx _].
    revert x Hx. now apply Forall_forall.
Qed.

End AppFacts.

(* ================================================================== *)
(** * The claims of the specification *)

Lemma addAll_advertisements (calls : list (string * string * string * Z * Z))
      (st : AppState) :
  advertisements (addAll calls st)
  = (rev (map recordOf calls) ++ advertisements st)%list.
Proof.
  unfold addAll. revert st.
  induction calls as [|[[[[i d] u] n1] n2] calls IH]; intros st;
    cbn [fold_left map rev]; [reflexivity |].
  rewrite IH, AppFacts.advertisements_add, <- app_assoc. reflexivity.
Qed.

(** C1, as amended.  [addAdvertisement] has no capacity check: a resolved
    add always makes the list one longer.  The limit of five is kept by
    [handleAddPress]: with five or more records it shows the limit notice
    and changes nothing else, with fewer it opens the add form.  So from a
    state within the limit, whatever the user presses, the store never
    holds more than five records. *)
Theorem C1_limit_kept_by_handleAddPress :
  forall (events : list Event) (st : AppState),
    withinLimit st ->
    (List.length (advertisements (run events st)) <= 5)%nat
    /\ ((5 <= List.length (advertisements st))%nat ->
        handleAddPress st = alert AlertLimit st)
    /\ ((List.length (advertisements st) < 5)%nat ->
        handleAddPress st = setCurrentScreen Add st)
    /\ (forall i d u n1 n2,
          List.length
            (advertisements (addAdvertisement i d u n1 n2 Resolves st))
          = S (List.length (advertisements st))).
Proof.
  intros events st Hin. repeat split.
  - exact (proj1 (AppFacts.run_withinLimit events st Hin)).
  - intros H. unfold handleAddPress.
    apply Nat.leb_le in H. now rewrite H.
  - intros H. unfold handleAddPress.
    apply Nat.leb_gt in H. now rewrite H.
Qed.

Lemma C1_limit_kept_by_handleAddPress_witness :
  withinLimit (loadedState [])
  /\ (List.length (advertisements (run sixRounds (loadedState []))) <= 5)%nat.
Proof.
  assert (H : withinLimit (loadedState []))
    by (split; [cbn; lia | discriminate]).
  split; [exact H |].
  exact (proj1 (C1_limit_kept_by_handleAddPress sixRounds (loadedState []) H)).
Defined.

(** C1, as stated, fails: with five records held, a call of
    [addAdvertisement] is not rejected; the store then holds six. *)
Lemma C1_sixth_add_is_stored :
  let st := addAll fiveCalls (initialState None) in
  let st' :=
    addAdvertisement "file:///6.jpg" "Job F" "http://f" 1006 1006 Resolves st in
  List.length (advertisements st) = 5%nat
  /\ List.length (advertisements st') = 6%nat
  /\ advertisements st' <> advertisements st
  /\ alerts st' = (alerts st ++ [AlertAdded])%list.
Proof.
  repeat split; try reflexivity.
  vm_compute. discriminate.
Qed.

(** The id of a record is the decimal text of the clock reading taken for
    it, and two readings give the same text only when they are equal: the
    records created by a sequence of adds carry pairwise distinct ids
    exactly when the clock readings of those adds are pairwise distinct. *)
Lemma ids_distinct_iff_clock_readings_distinct :
  forall (calls : list (string * string * string * Z * Z)) (st : AppState),
    advertisements (addAll calls st)
    = (rev (map recordOf calls) ++ advertisements st)%list
    /\ map id (map recordOf calls)
       = map JsNumber.toString (map idClock calls)
    /\ (NoDup (map id (map recordOf calls)) <-> NoDup (map idClock calls)).
Proof.
  intros calls st.
  assert (Hids : map id (map recordOf calls)
                 = map JsNumber.toString (map idClock calls)).
  { rewrite !map_map. apply map_ext.
    intros [[[[i d] u] n1] n2]. reflexivity. }
  split; [apply addAll_advertisements |].
  split; [exact Hids |].
  rewrite Hids. split.
  - apply NoDup_map_inv.
  - apply Injective_map_NoDup.
    intros a b. apply JsonFacts.toString_inj.
Qed.

(** C2.  The claim asks for ids that never repeat, also between two adds
    within one millisecond.  [addAdvertisement] takes the id from the
    clock alone: two adds that read the same millisecond give their
    records the same id, and the store then holds two records under one
    id, which a single removal takes away together. *)
Theorem C2_same_millisecond_same_id :
  let st :=
    addAll [("file:///1.jpg", "Job A", "http://a", 1000, 1000);
            ("file:///2.jpg", "Job B", "http://b", 1000, 1000)]
           (initialState None) in
  map id (advertisements st) = ["1000"; "1000"]
  /\ ~ NoDup (map id (advertisements st))
  /\ advertisements (deleteAdvertisement "1000" (Confirm Resolves) st) = [].
Proof.
  split; [reflexivity |]. split; [| reflexivity].
  intros H. vm_compute in H. inversion H as [|x l Hnotin _]; subst.
  apply Hnotin. now left.
Qed.

(** C3.  When the durable write of an add fails, the list in memory and
    the slot are what they were and the failure notice is shown; and
    whatever the write does, the state after the add is either the old list
    over the old slot or the new list over a slot that holds it: there is
    no state between the two. *)
Theorem C3_failed_write_keeps_list :
  forall (i d u : string) (n1 n2 : Z) (st : AppState),
    advertisements (addAdvertisement i d u n1 n2 Rejects st)
    = advertisements st
    /\ slot (addAdvertisement i d u n1 n2 Rejects st) = slot st
    /\ In AlertSaveFailed (alerts (addAdvertisement i d u n1 n2 Rejects st))
    /\ forall io,
        let st' := addAdvertisement i d u n1 n2 io st in
        (advertisements st' = advertisements st /\ slot st' = slot st)
        \/ (advertisements st'
            = mkAd (JsNumber.toString n1) i d u n2 :: advertisements st
            /\ slot st' = Some (Json.stringify (advertisements st'))).
Proof.
  intros i d u n1 n2 st. repeat split.
  - cbn. rewrite !in_app_iff. left. right. now left.
  - intros [|]; [right | left]; split; reflexivity.
Qed.

(** C4, as amended.  Run on the state the application mounts with: with
    the slot absent the load leaves the empty list and logs nothing; when
    the read is rejected, or the text of the slot is not JSON, it leaves
    the empty list and logs the error, and nothing is raised; a text that
    [saveAdvertisements] wrote is loaded as the list it was written from.
    In each of these cases, and in every case in which the parsed value
    is a list of records, the load ends with the loading flag off.  The
    one other case is a slot whose text is JSON and no list of records:
    its value is not checked. *)
Theorem C4_load_falls_back_to_empty :
  forall (io : IO) (stored : option string),
    loadAdvertisements Resolves (initialState None)
    = Typed (mkState Home [] None false None [] [])
    /\ loadAdvertisements Rejects (initialState stored)
       = Typed (mkState Home [] None false stored [] [LoadError])
    /\ (forall text,
          text <> EmptyString ->
          Json.parse text = Json.SyntaxError ->
          loadAdvertisements Resolves (initialState (Some text))
          = Typed (mkState Home [] None false (Some text) [] [LoadError]))
    /\ (forall ads,
          timeValues ads ->
          loadAdvertisements Resolves
                             (initialState (Some (Json.stringify ads)))
          = Typed (mkState Home ads None false
                           (Some (Json.stringify ads)) [] []))
    /\ ((exists st,
            loadAdvertisements io (initialState stored) = Typed st
            /\ loading st = false
            /\ (advertisements st = []
                \/ exists text v,
                    stored = Some text /\ Json.parse text = Json.Ok v
                    /\ asAdvertisements v = Some (advertisements st)))
        \/ (exists text v,
               io = Resolves /\ stored = Some text
               /\ Json.parse text = Json.Ok v
               /\ asAdvertisements v = None)).
Proof.
  intros io stored.
  split; [reflexivity |]. split; [reflexivity |]. split; [| split].
  - intros text Hne Hp. unfold loadAdvertisements. cbn [slot initialState].
    destruct text; [congruence |]. cbn [JsString.truthy JsString.isEmpty negb].
    rewrite Hp. reflexivity.
  - intros ads Ht.
    now apply (AppFacts.load_stringify ads
                 (initialState (Some (Json.stringify ads)))).
  - destruct io; [| left; eexists; repeat split; now left].
    unfold loadAdvertisements. cbn [slot initialState].
    destruct stored as [text|]; [| left; eexists; repeat split; now left].
    destruct (JsString.truthy text);
      [| left; eexists; repeat split; now left].
    pose proof (JsonFacts.parse_decides text) as Hd.
    destruct (Json.parse text) as [v| |] eqn:Hp; [| | congruence].
    + destruct (asAdvertisements v) as [ads|] eqn:Hv.
      * left. eexists. repeat split. right. exists text, v. now repeat split.
      * right. exists text, v. now repeat split.
    + left. eexists. repeat split. now left.
Qed.

Lemma C4_load_falls_back_to_empty_witness :
  loadAdvertisements Resolves (initialState (Some "{oops"))
  = Typed (mkState Home [] None false (Some "{oops") [] [LoadError])
  /\ loadAdvertisements Resolves
                        (initialState (Some (Json.stringify [jobA])))
     = Typed (mkState Home [jobA] None false
                      (Some (Json.stringify [jobA])) [] []).
Proof.
  assert (Hne : "{oops" <> EmptyString) by discriminate.
  assert (Hp : Json.parse "{oops" = Json.SyntaxError)
    by (vm_compute; reflexivity).
  assert (Ht : timeValues [jobA]) by (repeat constructor).
  split.
  - exact (proj1 (proj2 (proj2
      (C4_load_falls_back_to_empty Resolves None))) "{oops" Hne Hp).
  - exact (proj1 (proj2 (proj2 (proj2
      (C4_load_falls_back_to_empty Resolves None)))) [jobA] Ht).
Defined.

(** C4, as stated, fails: a slot holding the text null is read and parsed
    without any failure, so nothing is logged and nothing falls back; the
    value, which is no list, goes into the list cell, and the load does not
    end in a state that holds a sequence. *)
Lemma C4_null_slot_is_stored_unchecked :
  Json.parse "null" = Json.Ok Json.Null
  /\ loadAdvertisements Resolves (initialState (Some "null"))
     = NoList Json.Null
  /\ forall st,
      loadAdvertisements Resolves (initialState (Some "null")) <> Typed st.
Proof.
  assert (H : loadAdvertisements Resolves (initialState (Some "null"))
              = NoList Json.Null) by (vm_compute; reflexivity).
  split; [vm_compute; reflexivity |]. split; [exact H |].
  intros st. rewrite H. discriminate.
Qed.

(** C5.  A resolved add puts the new record at index 0 in front of the
    list as it was: after add(a) and then add(b) the list is b, a and then
    the earlier records in their order; and a load from the slot after a
    restart gives that same list. *)
Theorem C5_add_prepends_newest_first :
  forall (ia da ua : string) (a1 a2 : Z) (ib db ub : string) (b1 b2 : Z)
         (st : AppState),
    let recA := mkAd (JsNumber.toString a1) ia da ua a2 in
    let recB := mkAd (JsNumber.toString b1) ib db ub b2 in
    let stA := addAdvertisement ia da ua a1 a2 Resolves st in
    let stB := addAdvertisement ib db ub b1 b2 Resolves stA in
    advertisements stA = recA :: advertisements st
    /\ nth_error (advertisements stA) 0 = Some recA
    /\ advertisements stB = recB :: recA :: advertisements st
    /\ (timeValues (advertisements st) ->
        JsNumber.isTimeValue a2 = true ->
        JsNumber.isTimeValue b2 = true ->
        exists st2,
          loadAdvertisements Resolves (initialState (slot stB)) = Typed st2
          /\ advertisements st2 = recB :: recA :: advertisements st).
Proof.
  intros ia da ua a1 a2 ib db ub b1 b2 st recA recB stA stB.
  split; [reflexivity |]. split; [reflexivity |]. split; [reflexivity |].
  intros Ht Ha Hb. eexists. split.
  - apply (AppFacts.load_stringify (recB :: recA :: advertisements st)).
    + repeat constructor; assumption.
    + reflexivity.
  - reflexivity.
Qed.

Lemma C5_add_prepends_newest_first_witness :
  exists st2,
    loadAdvertisements Resolves
      (initialState
         (slot
            (addAdvertisement "file:///2.jpg" "Job B" "http://b" 2000 2000
               Resolves
               (addAdvertisement "file:///1.jpg" "Job A" "http://a" 1000 1000
                  Resolves (loadedState [jobA])))))
    = Typed st2
    /\ advertisements st2
       = [mkAd "2000" "file:///2.jpg" "Job B" "http://b" 2000;
          mkAd "1000" "file:///1.jpg" "Job A" "http://a" 1000;
          jobA].
Proof.
  assert (Ht : timeValues (advertisements (loadedState [jobA])))
    by (repeat constructor).
  exact (proj2 (proj2 (proj2
    (C5_add_prepends_newest_first
       "file:///1.jpg" "Job A" "http://a" 1000 1000
       "file:///2.jpg" "Job B" "http://b" 2000 2000
       (loadedState [jobA])))) Ht eq_refl eq_refl).
Defined.

Lemma matchesQuery_spec (fmt : Z -> string) (query : string)
      (ad : Advertisement) :
  JsString.trim query <> EmptyString ->
  matchesQuery fmt query ad = true
  <-> (JsString.isSubstring (JsString.toLowerCase query)
                            (JsString.toLowerCase (description ad))
       \/ JsString.isSubstring (JsString.toLowerCase query)
                               (JsString.toLowerCase (url ad))
       \/ JsString.isSubstring (JsString.toLowerCase query)
                               (fmt (createdAt ad))).
Proof.
  intros Hq. unfold matchesQuery.
  assert (Ht : JsString.truthy (JsString.trim query) = true).
  { unfold JsString.truthy. destruct (JsString.trim query);
      [congruence | reflexivity]. }
  rewrite Ht. cbn [negb].
  rewrite !orb_true_iff, !JsStringFacts.includes_spec. tauto.
Qed.

(** C6, as amended.  For every query that does not trim to the empty
    string and every record: the search result holds the record exactly
    when the record is in the store and the lowercased query is a
    substring of its lowercased description, of its lowercased url, or of
    its rendered creation time; this holds whatever the platform renders,
    and so with the creation time rendered as DD.MM.YYYY HH:MM.  On the
    record of the example, the queries react, JOB1 and 12.03.2024 find it
    and golang does not. *)
Theorem C6_search_matches_substring :
  forall (offsetMinutes : Z) (query : string) (st : AppState)
         (ad : Advertisement),
    JsString.trim query <> EmptyString ->
    (forall rendering : Z -> string,
        In ad (filteredAdvertisements rendering query (advertisements st))
        <-> In ad (advertisements st)
            /\ (JsString.isSubstring (JsString.toLowerCase query)
                                     (JsString.toLowerCase (description ad))
                \/ JsString.isSubstring (JsString.toLowerCase query)
                                        (JsString.toLowerCase (url ad))
                \/ JsString.isSubstring (JsString.toLowerCase query)
                                        (rendering (createdAt ad))))
    /\ (In ad (search offsetMinutes query st)
     <-> In ad (advertisements st)
         /\ (JsString.isSubstring (JsString.toLowerCase query)
                                  (JsString.toLowerCase (description ad))
             \/ JsString.isSubstring (JsString.toLowerCase query)
                                     (JsString.toLowerCase (url ad))
             \/ JsString.isSubstring
                  (JsString.toLowerCase query)
                  (JsDate.toLocaleDateString offsetMinutes (createdAt ad))))
    /\ JsDate.toLocaleDateString 60 (createdAt jobA) = "12.03.2024 09:00"
    /\ search 60 "react" (loadedState [jobA]) = [jobA]
    /\ search 60 "JOB1" (loadedState [jobA]) = [jobA]
    /\ search 60 "12.03.2024" (loadedState [jobA]) = [jobA]
    /\ search 60 "golang" (loadedState [jobA]) = [].
Proof.
  intros tz query st ad Hq.
  assert (Hany : forall rendering : Z -> string,
    In ad (filteredAdvertisements rendering query (advertisements st))
    <-> In ad (advertisements st)
        /\ (JsString.isSubstring (JsString.toLowerCase query)
                                 (JsString.toLowerCase (description ad))
            \/ JsString.isSubstring (JsString.toLowerCase query)
                                    (JsString.toLowerCase (url ad))
            \/ JsString.isSubstring (JsString.toLowerCase query)
                                    (rendering (createdAt ad)))).
  { intros rendering. unfold filteredAdvertisements.
    rewrite filter_In, matchesQuery_spec by assumption. reflexivity. }
  split; [exact Hany |].
  split; [apply Hany |].
  repeat split; vm_compute; reflexivity.
Qed.

Lemma C6_search_matches_substring_witness :
  In jobA (search 60 "react" (loadedState [jobA]))
  <-> In jobA (advertisements (loadedState [jobA]))
      /\ (JsString.isSubstring (JsString.toLowerCase "react")
                               (JsString.toLowerCase (description jobA))
          \/ JsString.isSubstring (JsString.toLowerCase "react")
                                  (JsString.toLowerCase (url jobA))
          \/ JsString.isSubstring
               (JsString.toLowerCase "react")
               (JsDate.toLocaleDateString 60 (createdAt jobA))).
Proof.
  assert (Hq : JsString.trim "react" <> EmptyString) by discriminate.
  exact (proj1 (proj2 (C6_search_matches_substring
                         60 "react" (loadedState [jobA]) jobA Hq))).
Defined.

(** C6, as stated, fails: a query of two spaces is not empty and is a
    substring of none of the three texts of the record, yet the search
    returns the record. *)
Lemma C6_blank_query_returns_record :
  let query := "  " in
  query <> EmptyString
  /\ In jobA (search 60 query (loadedState [jobA]))
  /\ ~ (JsString.isSubstring (JsString.toLowerCase query)
                             (JsString.toLowerCase (description jobA))
        \/ JsString.isSubstring (JsString.toLowerCase query)
                                (JsString.toLowerCase (url jobA))
        \/ JsString.isSubstring
             (JsString.toLowerCase query)
             (JsDate.toLocaleDateString 60 (createdAt jobA))).
Proof.
  split; [discriminate |]. split; [now left |].
  intros [H | [H | H]]; apply JsStringFacts.includes_spec in H;
    vm_compute in H; discriminate.
Qed.

Lemma matchesQuery_asSpecified (rendering : Z -> string) (query : string)
      (ad : Advertisement) :
  matchesQuery rendering query ad = true
  <-> matchesAsSpecified rendering query ad.
Proof.
  unfold matchesAsSpecified.
  destruct (JsString.trim query) eqn:Ht.
  - apply JsStringFacts.trim_empty in Ht. split; [now left |].
    intros _. unfold matchesQuery.
    apply JsStringFacts.truthy_trim_false in Ht. now rewrite Ht.
  - assert (Hne : JsString.trim query <> EmptyString)
      by (rewrite Ht; discriminate).
    rewrite (matchesQuery_spec rendering query ad Hne). split.
    + intros H. now right.
    + intros [Hb | H]; [| exact H].
      apply JsStringFacts.trim_empty in Hb. congruence.
Qed.

(** C7.  A query that is empty or holds white space only gives back the
    whole list.  For every query the result is the list with the records
    that do not match left out and the others in their order: a record is
    in the result exactly when it is in the list and the query is blank
    or its lowercase form occurs in the lowercase description, the
    lowercase url or the rendered creation time; and wherever a record
    stands in the list, the result is the result over the records before
    it, then the record if it matches, then the result over the records
    after it.  The search is a function of the query and the list in
    memory alone: it has a value for every input and does not depend on
    the slot. *)
Theorem C7_search_is_order_preserving_filter :
  forall (offsetMinutes : Z) (query : string) (st : AppState),
    let rendering := JsDate.toLocaleDateString offsetMinutes in
    (JsString.allWhiteSpace query ->
     search offsetMinutes query st = advertisements st)
    /\ search offsetMinutes EmptyString st = advertisements st
    /\ subsequence (search offsetMinutes query st) (advertisements st)
    /\ (forall ad,
          In ad (search offsetMinutes query st)
          <-> In ad (advertisements st)
              /\ matchesAsSpecified rendering query ad)
    /\ (forall before ad after,
          advertisements st = (before ++ ad :: after)%list ->
          (matchesAsSpecified rendering query ad ->
           search offsetMinutes query st
           = (filteredAdvertisements rendering query before
              ++ ad :: filteredAdvertisements rendering query after)%list)
          /\ (~ matchesAsSpecified rendering query ad ->
              search offsetMinutes query st
              = (filteredAdvertisements rendering query before
                 ++ filteredAdvertisements rendering query after)%list))
    /\ (forall st',
          advertisements st' = advertisements st ->
          search offsetMinutes query st' = search offsetMinutes query st).
Proof.
  intros tz query st rendering. unfold search. fold rendering.
  unfold filteredAdvertisements.
  split; [| split; [| split; [| split; [| split]]]].
  - intros Hws. apply AppFacts.filter_id. intros ad _.
    apply matchesQuery_asSpecified. now left.
  - apply AppFacts.filter_id. reflexivity.
  - apply AppFacts.filter_subsequence.
  - intros ad. rewrite filter_In, matchesQuery_asSpecified. reflexivity.
  - intros before ad after ->. rewrite filter_app. cbn [filter].
    split; intros Hm.
    + apply matchesQuery_asSpecified in Hm. now rewrite Hm.
    + destruct (matchesQuery rendering query ad) eqn:Hq; [| reflexivity].
      exfalso. apply Hm. now apply matchesQuery_asSpecified.
  - intros st' H. now rewrite H.
Qed.

Lemma C7_search_is_order_preserving_filter_witness :
  search 60 "  " (loadedState [jobA]) = advertisements (loadedState [jobA])
  /\ search 60 "react" (loadedState [jobB; jobA])
     = (filteredAdvertisements (JsDate.toLocaleDateString 60) "react" []
        ++ filteredAdvertisements (JsDate.toLocaleDateString 60) "react"
                                  [jobA])%list.
Proof.
  assert (Hws : JsString.allWhiteSpace "  ")
    by (intros c [<- | [<- | []]]; reflexivity).
  assert (Hno : ~ matchesAsSpecified (JsDate.toLocaleDateString 60)
                                     "react" jobB).
  { intros [H | [H | [H | H]]].
    - specialize (H "r"%char (or_introl eq_refl)). discriminate.
    - apply JsStringFacts.includes_spec in H. vm_compute in H. discriminate.
    - apply JsStringFacts.includes_spec in H. vm_compute in H. discriminate.
    - apply JsStringFacts.includes_spec in H. vm_compute in H. discriminate. }
  split.
  - exact (proj1 (C7_search_is_order_preserving_filter
                    60 "  " (loadedState [jobA])) Hws).
  - exact (proj2 (proj1 (proj2 (proj2 (proj2 (proj2
      (C7_search_is_order_preserving_filter
         60 "react" (loadedState [jobB; jobA]))))))
        [] jobB [jobA] eq_refl) Hno).
Defined.

(** C8, as amended.  Removing an id that no record carries leaves the
    list in memory as it was, whatever the dialog and the write do; no
    flag is returned.  Removing the same id twice leaves the same list,
    in memory and in the slot, as removing it once; with writes that may
    fail, twice is once with a write that resolves when either did. *)
Theorem C8_delete_is_idempotent :
  forall (id0 : string) (st : AppState),
    (hasId id0 (advertisements st) = false ->
     forall answer,
       advertisements (deleteAdvertisement id0 answer st) = advertisements st)
    /\ (let once := deleteAdvertisement id0 (Confirm Resolves) st in
        let twice := deleteAdvertisement id0 (Confirm Resolves) once in
        advertisements twice = advertisements once
        /\ slot twice = slot once
        /\ hasId id0 (advertisements once) = false)
    /\ (forall io1 io2,
          advertisements
            (deleteAdvertisement id0 (Confirm io2)
               (deleteAdvertisement id0 (Confirm io1) st))
          = advertisements
              (deleteAdvertisement id0 (Confirm (eitherResolves io1 io2)) st)).
Proof.
  intros id0 st. split; [| split].
  - intros Habs [|io]; [reflexivity |].
    rewrite AppFacts.advertisements_delete. destruct io; [| reflexivity].
    now apply AppFacts.filter_absent.
  - cbv zeta.
    rewrite !AppFacts.advertisements_delete, !AppFacts.slot_delete.
    rewrite !AppFacts.advertisements_delete, AppFacts.filter_idem.
    repeat split.
    apply AppFacts.hasId_false. intros ad Hin.
    apply filter_In in Hin as [_ Hne].
    apply negb_true_iff in Hne. now apply String.eqb_neq in Hne.
  - intros io1 io2. rewrite !AppFacts.advertisements_delete.
    destruct io1, io2; cbn [eitherResolves];
      rewrite ?AppFacts.advertisements_delete, ?AppFacts.filter_idem;
      reflexivity.
Qed.

Lemma C8_delete_is_idempotent_witness :
  advertisements
    (deleteAdvertisement "42" (Confirm Resolves) (loadedState [jobA]))
  = advertisements (loadedState [jobA]).
Proof.
  exact (proj1 (C8_delete_is_idempotent "42" (loadedState [jobA]))
               eq_refl (Confirm Resolves)).
Defined.

(** C8, as stated, fails: for an id that no record carries the removal
    does not answer false; it ends with the notice that the record was
    removed, the same alerts as when it removes one. *)
Lemma C8_absent_id_is_reported_removed :
  let st := loadedState [jobA] in
  hasId "42" (advertisements st) = false
  /\ reportsRemoved (deleteAdvertisement "42" (Confirm Resolves) st) = true
  /\ alerts (deleteAdvertisement "42" (Confirm Resolves) st)
     = alerts (deleteAdvertisement (id jobA) (Confirm Resolves) st).
Proof. repeat split. Qed.

(** C9.  After a resolved add, a load from the slot on a freshly mounted
    application gives the list as it was in memory; the record at index 0
    has the id, image, description, url and creation time of the record
    that was added. *)
Theorem C9_reload_gives_back_the_record :
  forall (i d u : string) (n1 n2 : Z) (st : AppState),
    timeValues (advertisements st) ->
    JsNumber.isTimeValue n2 = true ->
    let st' := addAdvertisement i d u n1 n2 Resolves st in
    exists st2 ad,
      loadAdvertisements Resolves (initialState (slot st')) = Typed st2
      /\ advertisements st2 = advertisements st'
      /\ nth_error (advertisements st2) 0 = Some ad
      /\ id ad = JsNumber.toString n1
      /\ imageUri ad = i
      /\ description ad = d
      /\ url ad = u
      /\ createdAt ad = n2.
Proof.
  intros i d u n1 n2 st Ht Hn st'.
  exists (setLoading false
            (setAdvertisements (advertisements st')
                               (initialState (slot st')))).
  exists (mkAd (JsNumber.toString n1) i d u n2).
  split; [| repeat split].
  apply (AppFacts.load_stringify (advertisements st')).
  - subst st'. rewrite AppFacts.advertisements_add.
    constructor; assumption.
  - reflexivity.
Qed.

Lemma C9_reload_gives_back_the_record_witness :
  exists st2 ad,
    loadAdvertisements Resolves
      (initialState
         (slot (addAdvertisement "file:///1.jpg" "Job A" "http://a"
                                 1000 1001 Resolves (loadedState [jobA]))))
    = Typed st2
    /\ advertisements st2
       = advertisements
           (addAdvertisement "file:///1.jpg" "Job A" "http://a"
                             1000 1001 Resolves (loadedState [jobA]))
    /\ nth_error (advertisements st2) 0 = Some ad
    /\ id ad = JsNumber.toString 1000
    /\ imageUri ad = "file:///1.jpg"
    /\ description ad = "Job A"
    /\ url ad = "http://a"
    /\ createdAt ad = 1001.
Proof.
  assert (Ht : timeValues (advertisements (loadedState [jobA])))
    by (repeat constructor).
  exact (C9_reload_gives_back_the_record
           "file:///1.jpg" "Job A" "http://a" 1000 1001
           (loadedState [jobA]) Ht eq_refl).
Defined.

(** C10.  A confirmed removal whose write resolves leaves exactly the
    records whose id differs from the given one, every record with that
    id gone, the others in their order; and it writes the resulting list
    to the slot, also when no record carried the id. *)
Theorem C10_delete_removes_every_match :
  forall (id0 : string) (st : AppState),
    let st' := deleteAdvertisement id0 (Confirm Resolves) st in
    (forall ad,
        In ad (advertisements st')
        <-> In ad (advertisements st) /\ id ad <> id0)
    /\ subsequence (advertisements st') (advertisements st)
    /\ slot st' = Some (Json.stringify (advertisements st'))
    /\ (hasId id0 (advertisements st) = false ->
        advertisements st' = advertisements st
        /\ slot st' = Some (Json.stringify (advertisements st))).
Proof.
  intros id0 st st'. subst st'.
  rewrite AppFacts.advertisements_delete, AppFacts.slot_delete.
  split; [| split; [| split]].
  - intros ad. rewrite filter_In, negb_true_iff. unfold string_eqb.
    now rewrite String.eqb_neq.
  - apply AppFacts.filter_subsequence.
  - reflexivity.
  - intros Habs. now rewrite AppFacts.filter_absent.
Qed.

Lemma C10_delete_removes_every_match_witness :
  advertisements
    (deleteAdvertisement "42" (Confirm Resolves) (loadedState [jobA]))
  = advertisements (loadedState [jobA])
  /\ slot (deleteAdvertisement "42" (Confirm Resolves) (loadedState [jobA]))
     = Some (Json.stringify (advertisements (loadedState [jobA]))).
Proof.
  exact (proj2 (proj2 (proj2
    (C10_delete_removes_every_match "42" (loadedState [jobA])))) eq_refl).
Defined.

(* ================================================================== *)
(** * The scenario of the specification, run *)

(** Start empty; add Job A, then Job B: the list reads B, A.  A search
    for "job a" finds A alone.  Removing A's id leaves B; removing it
    again leaves the list as it is. *)
Example scenario_add_search_remove :
  let s1 :=
    addAdvertisement "file:///1.jpg" "Job A" "http://a" 1 1 Resolves
                     (initialState None) in
  let s2 :=
    addAdvertisement "file:///2.jpg" "Job B" "http://b" 2 2 Resolves s1 in
  let s3 := deleteAdvertisement "1" (Confirm Resolves) s2 in
  let s4 := deleteAdvertisement "1" (Confirm Resolves) s3 in
  map description (advertisements s1) = ["Job A"]
  /\ map description (advertisements s2) = ["Job B"; "Job A"]
  /\ map description (search 0 "job a" s2) = ["Job A"]
  /\ map description (advertisements s3) = ["Job B"]
  /\ advertisements s4 = advertisements s3.
Proof. repeat split. Qed.

(** Six rounds of '+ Dodaj' and 'Zapisz' from an empty store: five records
    are held, and the sixth press of '+ Dodaj' ends in the limit notice. *)
Example scenario_sixth_round_is_stopped :
  let st := run sixRounds (loadedState []) in
  List.length (advertisements st) = 5%nat
  /\ currentScreen st = Home
  /\ reportsRemoved st = false
  /\ last (alerts st) AlertAdded = AlertLimit.
Proof. repeat split. Qed.

(** The guard of [handleAddPress] reads the list in memory.  A press on
    '+ Dodaj' before the load has put the stored list there opens the
    form; a save after the load then stores a sixth record. *)
Example scenario_add_form_opened_while_loading :
  let stored := slot (addAll fiveCalls (initialState None)) in
  let st1 := handleAddPress (initialState stored) in
  currentScreen st1 = Add
  /\ exists st2,
      loadAdvertisements Resolves st1 = Typed st2
      /\ List.length (advertisements st2) = 5%nat
      /\ List.length
           (advertisements
              (handleSave "file:///6.jpg" "Job F" "http://f" 1006 1006
                          Resolves st2)) = 6%nat.
Proof.
  split; [reflexivity |].
  eexists. split; [vm_compute; reflexivity |].
  split; reflexivity.
Qed.

(* ================================================================== *)
(** * Further properties of the screens *)

Module ScreenFacts.

Import JsString.

Lemma isSubstring_refl (s : string) : isSubstring s s.
Proof.
  exists EmptyString, EmptyString. cbn [append].
  now rewrite JsNumberFacts.append_empty_r.
Qed.

Lemma isSubstring_trans (a b c : string) :
  isSubstring a b -> isSubstring b c -> isSubstring a c.
Proof.
  intros (x & y & ->) (u & v & ->).
  exists (u ++ x), (y ++ v).
  now rewrite !JsNumberFacts.append_assoc.
Qed.

Lemma in_append (c : ascii) (a b : string) :
  In c (list_ascii_of_string (a ++ b))
  <-> In c (list_ascii_of_string a) \/ In c (list_ascii_of_string b).
Proof.
  induction a as [|x a IH]; cbn [append list_ascii_of_string In].
  - tauto.
  - rewrite IH. tauto.
Qed.

Lemma allWhiteSpace_substring (a b : string) :
  isSubstring a b -> allWhiteSpace b -> allWhiteSpace a.
Proof.
  intros (x & y & ->) H c Hc. apply H.
  apply in_append. right. apply in_append. now left.
Qed.

Lemma isWhiteSpace_toLowerCaseChar (c : ascii) :
  isWhiteSpace (toLowerCaseChar c) = isWhiteSpace c.
Proof. destruct c as [[] [] [] [] [] [] [] []]; reflexivity. Qed.

Lemma allWhiteSpace_toLowerCase (s : string) :
  allWhiteSpace (toLowerCase s) <-> allWhiteSpace s.
Proof.
  unfold allWhiteSpace.
  induction s as [|c s IH]; cbn [toLowerCase list_ascii_of_string In].
  - tauto.
  - split; intros H x [<- | Hx].
    + rewrite <- isWhiteSpace_toLowerCaseChar. apply H. now left.
    + apply (proj1 IH); [| exact Hx]. intros y Hy. apply H. now right.
    + rewrite isWhiteSpace_toLowerCaseChar. apply H. now left.
    + apply (proj2 IH); [| exact Hx]. intros y Hy. apply H. now right.
Qed.

Lemma blank_dec (s : string) : allWhiteSpace s \/ trim s <> EmptyString.
Proof.
  destruct (trim s) eqn:Ht.
  - left. now apply JsStringFacts.trim_empty.
  - right. discriminate.
Qed.

Lemma matchesQuery_blank (fmt : Z -> string) (q : string)
      (ad : Advertisement) :
  allWhiteSpace q -> matchesQuery fmt q ad = true.
Proof.
  intros H. unfold matchesQuery.
  apply JsStringFacts.truthy_trim_false in H. now rewrite H.
Qed.

Lemma filter_subsequence_weaker {A : Type} (p p' : A -> bool) (l : list A) :
  (forall x, In x l -> p x = true -> p' x = true) ->
  subsequence (filter p l) (filter p' l).
Proof.
  induction l as [|x l IH]; intros H; cbn [filter]; [constructor |].
  assert (IH' : subsequence (filter p l) (filter p' l))
    by (apply IH; intros y Hy; apply H; now right).
  destruct (p x) eqn:Hp.
  - rewrite (H x (or_introl eq_refl) Hp). now constructor.
  - destruct (p' x); [now constructor | exact IH'].
Qed.

(* ---------------- trimming ---------------- *)

Lemma trimStart_fixed (c : ascii) (r : string) :
  isWhiteSpace c = false -> trimStart (String c r) = String c r.
Proof. intros H. cbn [trimStart]. now rewrite H. Qed.

Lemma trimEnd_idem (s : string) : trimEnd (trimEnd s) = trimEnd s.
Proof.
  induction s as [|c s IH]; [reflexivity |].
  cbn [trimEnd].
  destruct (isWhiteSpace c && isEmpty (trimEnd s)) eqn:Hc; [reflexivity |].
  cbn [trimEnd]. rewrite IH, Hc. reflexivity.
Qed.

Lemma trimEnd_head (c : ascii) (r : string) :
  isWhiteSpace c = false -> trimEnd (String c r) = String c (trimEnd r).
Proof. intros H. cbn [trimEnd]. now rewrite H. Qed.

(** Trimming what is trimmed changes nothing. *)
Lemma trim_idem (s : string) : trim (trim s) = trim s.
Proof.
  unfold trim. pose proof (JsStringFacts.trimStart_head s) as Hh.
  destruct (trimStart s) as [|c r]; [reflexivity |].
  rewrite (trimEnd_head c r Hh), (trimStart_fixed c (trimEnd r) Hh).
  rewrite <- (trimEnd_head c r Hh). apply trimEnd_idem.
Qed.

Lemma truthy_true (s : string) : truthy s = true <-> s <> EmptyString.
Proof. destruct s; cbn; split; congruence. Qed.

End ScreenFacts.

Module RunFacts.

Lemma dispatch_frame (st : AppState) (e : Event) :
  writes e = false ->
  advertisements (dispatch st e) = advertisements st
  /\ slot (dispatch st e) = slot st.
Proof.
  intros Hw. unfold dispatch.
  destruct (currentScreen st), e; try (split; reflexivity).
  - unfold handleAddPress.
    destruct (5 <=? List.length (advertisements st))%nat; split; reflexivity.
  - destruct (nth_error (advertisements st) index); split; reflexivity.
  - destruct io; [discriminate |]. unfold handleSave.
    repeat match goal with
           | |- context [if ?b then _ else _] =>
               destruct b; [split; reflexivity |]
           end.
    split; reflexivity.
  - destruct (selectedAd st) as [ad|]; [| split; reflexivity].
    destruct answer as [|[|]]; [split; reflexivity | discriminate |].
    split; reflexivity.
Qed.

Lemma dispatch_slotInStep (st : AppState) (e : Event) :
  slotInStep st -> slotInStep (dispatch st e).
Proof.
  unfold slotInStep. intros H.
  destruct (writes e) eqn:Hw.
  - unfold dispatch.
    destruct (currentScreen st), e; try discriminate; try exact H.
    + destruct io; [| discriminate]. unfold handleSave.
      repeat match goal with
             | |- context [if ?b then _ else _] => destruct b; [exact H |]
             end.
      reflexivity.
    + destruct (selectedAd st) as [ad|]; [| exact H].
      destruct answer as [|[|]]; try discriminate. reflexivity.
  - destruct (dispatch_frame st e Hw) as [Ha Hs]. now rewrite Ha, Hs.
Qed.

Lemma run_slotInStep (events : list Event) (st : AppState) :
  slotInStep st -> slotInStep (run events st).
Proof.
  unfold run. revert st.
  induction events as [|e events IH]; intros st H; cbn [fold_left];
    [exact H | apply IH; now apply dispatch_slotInStep].
Qed.

Lemma run_timeValues (events : list Event) (st : AppState) :
  Forall clockInRange events ->
  timeValues (advertisements st) ->
  timeValues (advertisements (run events st)).
Proof.
  unfold run. intros He. revert st.
  induction He as [|e events He _ IH]; intros st H; cbn [fold_left];
    [exact H | apply IH; now apply AppFacts.dispatch_timeValues].
Qed.

Lemma dispatch_detailsShowStored (st : AppState) (e : Event) :
  detailsShowStored st -> detailsShowStored (dispatch st e).
Proof.
  unfold detailsShowStored. intros H. unfold dispatch.
  destruct (currentScreen st) eqn:Hsc, e;
    try (rewrite Hsc; discriminate);
    try (rewrite Hsc; intros _; now apply H).
  - unfold handleAddPress.
    destruct (5 <=? List.length (advertisements st))%nat;
      cbn; [rewrite Hsc |]; discriminate.
  - destruct (nth_error (advertisements st) index) as [ad|] eqn:Hn;
      [| rewrite Hsc; discriminate].
    intros _. exists ad. split; [reflexivity |].
    cbn. now apply nth_error_In in Hn.
  - cbn. discriminate.
  - unfold handleSave.
    repeat match goal with
           | |- context [if ?b then _ else _] =>
               destruct b; [cbn; rewrite Hsc; discriminate |]
           end.
    cbn. discriminate.
  - cbn. discriminate.
  - destruct (selectedAd st) as [ad|] eqn:Hsel;
      [| destruct (H eq_refl) as (a & Ha & _); discriminate].
    destruct answer as [|io].
    + cbn. rewrite Hsc, Hsel. intros _. destruct (H eq_refl) as (a & Ha & Hin).
      exists a. now split.
    + cbn. discriminate.
Qed.

Lemma run_detailsShowStored (events : list Event) (st : AppState) :
  detailsShowStored st -> detailsShowStored (run events st).
Proof.
  unfold run. revert st.
  induction events as [|e events IH]; intros st H; cbn [fold_left];
    [exact H | apply IH; now apply dispatch_detailsShowStored].
Qed.

Lemma handleSave_savedByForm (i d u : string) (n1 n2 : Z) (io : IO)
      (st : AppState) :
  Forall savedByForm (advertisements st) ->
  Forall savedByForm (advertisements (handleSave i d u n1 n2 io st)).
Proof.
  intros H. unfold handleSave.
  destruct (JsString.truthy i) eqn:Hi; cbn [negb]; [| exact H].
  destruct (JsString.truthy (JsString.trim d)) eqn:Hd; cbn [negb];
    [| exact H].
  destruct (JsString.truthy (JsString.trim u)) eqn:Hu; cbn [negb];
    [| exact H].
  rewrite AppFacts.advertisements_add. destruct io; [| exact H].
  constructor; [| exact H].
  apply ScreenFacts.truthy_true in Hi, Hd, Hu.
  unfold savedByForm. cbn.
  repeat split; try assumption; apply ScreenFacts.trim_idem.
Qed.

Lemma dispatch_savedByForm (st : AppState) (e : Event) :
  Forall savedByForm (advertisements st) ->
  Forall savedByForm (advertisements (dispatch st e)).
Proof.
  intros H. destruct (writes e) eqn:Hw.
  - unfold dispatch.
    destruct (currentScreen st), e; try discriminate; try exact H.
    + now apply handleSave_savedByForm.
    + destruct (selectedAd st) as [ad|]; [| exact H].
      destruct answer as [|io]; [exact H |].
      rewrite AppFacts.advertisements_delete. destruct io; [| exact H].
      apply Forall_forall. intros x Hx. apply filter_In in Hx as [Hx _].
      revert x Hx. now apply Forall_forall.
  - now rewrite (proj1 (dispatch_frame st e Hw)).
Qed.

Lemma run_savedByForm (events : list Event) (st : AppState) :
  Forall savedByForm (advertisements st) ->
  Forall savedByForm (advertisements (run events st)).
Proof.
  unfold run. revert st.
  induction events as [|e events IH]; intros st H; cbn [fold_left];
    [exact H | apply IH; now apply dispatch_savedByForm].
Qed.

Lemma filter_removes_one (id0 : string) (ads : list Advertisement) :
  hasId id0 ads = true ->
  (List.length (filter (fun ad => negb (string_eqb (id ad) id0)) ads)
   < List.length ads)%nat.
Proof.
  unfold hasId. induction ads as [|a ads IH]; cbn [existsb filter];
    [discriminate |].
  pose proof (AppFacts.filter_length_le
                (fun ad => negb (string_eqb (id ad) id0)) ads) as Hle.
  destruct (string_eqb (id a) id0); cbn [orb negb List.length].
  - intros _. lia.
  - intros H. apply IH in H. lia.
Qed.

Lemma hasId_In (ad : Advertisement) (ads : list Advertisement) :
  In ad ads -> hasId (id ad) ads = true.
Proof.
  intros H. unfold hasId. apply existsb_exists. exists ad.
  split; [exact H | apply String.eqb_refl].
Qed.

Lemma filter_filter_comm {A : Type} (p q : A -> bool) (l : list A) :
  filter p (filter q l) = filter q (filter p l).
Proof.
  induction l as [|x l IH]; [reflexivity |]. cbn [filter].
  destruct (p x) eqn:Hp, (q x) eqn:Hq; cbn [filter];
    rewrite ?Hp, ?Hq, IH; reflexivity.
Qed.

Lemma stringToUnits_inj (a b : string) :
  stringToUnits a = stringToUnits b -> a = b.
Proof.
  intros H.
  pose proof (JsonFacts.unitsToString_stringToUnits a) as Ha.
  pose proof (JsonFacts.unitsToString_stringToUnits b) as Hb.
  rewrite H in Ha. congruence.
Qed.

Lemma valueOfAdvertisement_inj (a b : Advertisement) :
  valueOfAdvertisement a = valueOfAdvertisement b -> a = b.
Proof.
  destruct a, b. unfold valueOfAdvertisement. cbn.
  intros H. injection H as H1 H2 H3 H4 H5.
  apply stringToUnits_inj in H1, H2, H3, H4. congruence.
Qed.

Lemma map_inj {A B : Type} (f : A -> B) :
  (forall x y, f x = f y -> x = y) ->
  forall l l', map f l = map f l' -> l = l'.
Proof.
  intros Hf. induction l as [|x l IH]; intros [|y l'] H;
    try discriminate; [reflexivity |].
  cbn [map] in H. injection H as Hx Hl.
  f_equal; [now apply Hf | now apply IH].
Qed.

End RunFacts.

(* ================================================================== *)
(** * Further properties, stated *)

Lemma cons_neq_self {A : Type} (x : A) (l : list A) : x :: l <> l.
Proof.
  intros H. apply (f_equal (@List.length A)) in H.
  cbn [List.length] in H. lia.
Qed.

(** X1.  A press on 'Zapisz' whose write resolves stores a record exactly
    when the form is complete: it leaves the list as it was if and only
    if no image was chosen, or the description or the url holds white
    space only.  When it refuses, the slot and the screen stay as they
    were, whatever the write would have done. *)
Theorem X1_handleSave_refuses_incomplete_form :
  forall (i d u : string) (n1 n2 : Z) (st : AppState),
    (advertisements (handleSave i d u n1 n2 Resolves st) = advertisements st
     <-> (i = EmptyString \/ JsString.allWhiteSpace d
          \/ JsString.allWhiteSpace u))
    /\ ((i = EmptyString \/ JsString.allWhiteSpace d
         \/ JsString.allWhiteSpace u) ->
        forall io,
          advertisements (handleSave i d u n1 n2 io st) = advertisements st
          /\ slot (handleSave i d u n1 n2 io st) = slot st
          /\ currentScreen (handleSave i d u n1 n2 io st) = currentScreen st).
Proof.
  intros i d u n1 n2 st.
  assert (Hrefuse : (i = EmptyString \/ JsString.allWhiteSpace d
                     \/ JsString.allWhiteSpace u) ->
    forall io, exists a, handleSave i d u n1 n2 io st = alert a st).
  { intros H io. unfold handleSave.
    destruct (JsString.truthy i) eqn:Hi; cbn [negb]; [| eexists; reflexivity].
    destruct (JsString.truthy (JsString.trim d)) eqn:Hd; cbn [negb];
      [| eexists; reflexivity].
    destruct (JsString.truthy (JsString.trim u)) eqn:Hu; cbn [negb];
      [| eexists; reflexivity].
    exfalso. destruct H as [-> | [H | H]].
    - discriminate.
    - apply JsStringFacts.truthy_trim_false in H. congruence.
    - apply JsStringFacts.truthy_trim_false in H. congruence. }
  split; [split |].
  - intros Hsame. unfold handleSave in Hsame.
    destruct (JsString.truthy i) eqn:Hi; cbn [negb] in Hsame;
      [| left; destruct i; [reflexivity | discriminate]].
    destruct (JsString.truthy (JsString.trim d)) eqn:Hd; cbn [negb] in Hsame;
      [| right; left; now apply JsStringFacts.truthy_trim_false].
    destruct (JsString.truthy (JsString.trim u)) eqn:Hu; cbn [negb] in Hsame;
      [| right; right; now apply JsStringFacts.truthy_trim_false].
    rewrite AppFacts.advertisements_add in Hsame.
    now apply cons_neq_self in Hsame.
  - intros H. destruct (Hrefuse H Resolves) as [a ->]. reflexivity.
  - intros H io. destruct (Hrefuse H io) as [a ->]. repeat split.
Qed.

Lemma X1_handleSave_refuses_incomplete_form_witness :
  advertisements
    (handleSave "file:///1.jpg" "   " "http://a" 1 1 Resolves (loadedState [jobA]))
  = advertisements (loadedState [jobA]).
Proof.
  assert (Hws : JsString.allWhiteSpace "   ")
    by (intros c [<- | [<- | [<- | []]]]; reflexivity).
  exact (proj1 (proj2 (X1_handleSave_refuses_incomplete_form
                         "file:///1.jpg" "   " "http://a" 1 1
                         (loadedState [jobA]))
                      (or_intror (or_introl Hws)) Resolves)).
Defined.

(** X2.  Every record that the add form stores has an image, and a
    description and a url that are not empty and carry no white space at
    either end; presses keep a list of such records a list of such
    records. *)
Theorem X2_stored_records_are_trimmed :
  forall (events : list Event) (st : AppState),
    Forall savedByForm (advertisements st) ->
    Forall savedByForm (advertisements (run events st)).
Proof. intros events st H. now apply RunFacts.run_savedByForm. Qed.

Lemma X2_stored_records_are_trimmed_witness :
  Forall savedByForm
         (advertisements
            (run [PressAdd;
                  PressSave "file:///1.jpg" "  Job A " " http://a  " 1 1 Resolves]
                 (loadedState []))).
Proof.
  apply (X2_stored_records_are_trimmed
           [PressAdd;
            PressSave "file:///1.jpg" "  Job A " " http://a  " 1 1 Resolves]
           (loadedState [])).
  constructor.
Defined.

(** X3.  The slot follows the list: if the slot holds the text of the
    list in memory, it still does after every sequence of presses,
    whether the writes on the way resolve or are rejected. *)
Theorem X3_slot_follows_list :
  forall (events : list Event) (st : AppState),
    slotInStep st -> slotInStep (run events st).
Proof. intros events st H. now apply RunFacts.run_slotInStep. Qed.

Lemma X3_slot_follows_list_witness :
  slotInStep (run sixRounds (loadedState [jobA])).
Proof.
  apply (X3_slot_follows_list sixRounds (loadedState [jobA])).
  reflexivity.
Defined.

(** X4.  Nothing is lost over a restart: after any sequence of presses
    from a state whose slot holds its list, a freshly mounted application
    that loads the slot holds the list that was in memory, on the home
    screen, with loading over and no error logged. *)
Theorem X4_restart_restores_list :
  forall (events : list Event) (st : AppState),
    slotInStep st ->
    timeValues (advertisements st) ->
    Forall clockInRange events ->
    let st' := run events st in
    loadAdvertisements Resolves (initialState (slot st'))
    = Typed (mkState Home (advertisements st') None false (slot st') [] []).
Proof.
  intros events st Hs Ht He st'.
  apply (AppFacts.load_stringify (advertisements st')
                                 (initialState (slot st'))).
  - now apply RunFacts.run_timeValues.
  - now apply RunFacts.run_slotInStep.
Qed.

Lemma X4_restart_restores_list_witness :
  let st' :=
    run [PressCard 0; PressDelete (Confirm Resolves); PressAdd;
         PressSave "file:///2.jpg" "Job B" "http://b" 2000 2000 Resolves]
        (loadedState [jobA]) in
  loadAdvertisements Resolves (initialState (slot st'))
  = Typed (mkState Home (advertisements st') None false (slot st') [] []).
Proof.
  apply (X4_restart_restores_list
           [PressCard 0; PressDelete (Confirm Resolves); PressAdd;
            PressSave "file:///2.jpg" "Job B" "http://b" 2000 2000 Resolves]
           (loadedState [jobA])).
  - reflexivity.
  - repeat constructor.
  - repeat constructor.
Defined.

(** X5.  The details screen always shows a record of the store: on that
    screen a record is selected and the list holds it, after every
    sequence of presses, so [DetailsScreen] never renders nothing. *)
Theorem X5_details_show_a_stored_record :
  forall (events : list Event) (st : AppState),
    detailsShowStored st -> detailsShowStored (run events st).
Proof. intros events st H. now apply RunFacts.run_detailsShowStored. Qed.

Lemma X5_details_show_a_stored_record_witness :
  detailsShowStored (run [PressCard 0] (loadedState [jobA])).
Proof.
  apply (X5_details_show_a_stored_record [PressCard 0] (loadedState [jobA])).
  intros H. discriminate H.
Defined.

(** X6.  The bin of the details screen removes the record shown: when the
    dialog is confirmed and the write resolves, no record with the id of
    the selected one is left, the list is shorter, and the home screen is
    shown. *)
Theorem X6_bin_removes_the_record_shown :
  forall (st : AppState) (ad : Advertisement),
    currentScreen st = Details ->
    selectedAd st = Some ad ->
    In ad (advertisements st) ->
    let st' := dispatch st (PressDelete (Confirm Resolves)) in
    hasId (id ad) (advertisements st') = false
    /\ ~ In ad (advertisements st')
    /\ (List.length (advertisements st') < List.length (advertisements st))%nat
    /\ currentScreen st' = Home.
Proof.
  intros st ad Hsc Hsel Hin st'. subst st'.
  unfold dispatch. rewrite Hsc, Hsel.
  rewrite AppFacts.advertisements_delete.
  assert (Hgone : hasId (id ad)
            (filter (fun a => negb (string_eqb (id a) (id ad)))
                    (advertisements st)) = false).
  { apply AppFacts.hasId_false. intros x Hx.
    apply filter_In in Hx as [_ Hne]. apply negb_true_iff in Hne.
    now apply String.eqb_neq in Hne. }
  split; [exact Hgone |]. split; [| split].
  - intros H. apply RunFacts.hasId_In in H. congruence.
  - apply RunFacts.filter_removes_one. now apply RunFacts.hasId_In.
  - reflexivity.
Qed.

Lemma X6_bin_removes_the_record_shown_witness :
  hasId (id jobA)
        (advertisements
           (dispatch (openDetails jobA (loadedState [jobB; jobA]))
                     (PressDelete (Confirm Resolves))))
  = false.
Proof.
  exact (proj1 (X6_bin_removes_the_record_shown
                  (openDetails jobA (loadedState [jobB; jobA])) jobA
                  eq_refl eq_refl (or_intror (or_introl eq_refl)))).
Defined.

(** X7.  A rejected write does not stop the success notice.  After an add
    whose write was rejected the list is unchanged, yet the home screen is
    shown and the failure notice is followed by 'Sukces'; after a removal
    whose write was rejected the record is still held, yet the failure
    notice is followed by 'Usunieto'. *)
Theorem X7_rejected_write_still_ends_in_success_notice :
  forall (i d u : string) (n1 n2 : Z) (id0 : string) (st : AppState),
    (let st' := addAdvertisement i d u n1 n2 Rejects st in
     advertisements st' = advertisements st
     /\ currentScreen st' = Home
     /\ alerts st' = (alerts st ++ [AlertSaveFailed; AlertAdded])%list
     /\ console st' = (console st ++ [SaveError])%list)
    /\ (let st' := deleteAdvertisement id0 (Confirm Rejects) st in
        advertisements st' = advertisements st
        /\ currentScreen st' = Home
        /\ alerts st'
           = (alerts st ++ [AlertConfirmDelete; AlertSaveFailed; AlertDeleted])%list
        /\ reportsRemoved st' = true).
Proof.
  intros i d u n1 n2 id0 st. split; cbv zeta.
  - repeat split. cbn. now rewrite <- app_assoc.
  - assert (Ha : alerts (deleteAdvertisement id0 (Confirm Rejects) st)
                 = (alerts st
                    ++ [AlertConfirmDelete; AlertSaveFailed; AlertDeleted])%list)
      by (cbn; now rewrite <- !app_assoc).
    repeat split; [exact Ha |].
    unfold reportsRemoved. rewrite Ha, rev_app_distr. reflexivity.
Qed.

(** X8.  A query whose lowercase form holds the lowercase form of another
    never finds more than that other one: every record found for it is
    found for the other, in the same order, whatever the platform renders
    for the date. *)
Theorem X8_longer_query_narrows_the_result :
  forall (rendering : Z -> string) (shorter longer : string)
         (ads : list Advertisement),
    JsString.isSubstring (JsString.toLowerCase shorter)
                         (JsString.toLowerCase longer) ->
    subsequence (filteredAdvertisements rendering longer ads)
                (filteredAdvertisements rendering shorter ads).
Proof.
  intros fmt q' q ads Hsub. unfold filteredAdvertisements.
  apply ScreenFacts.filter_subsequence_weaker. intros ad _ Hm.
  destruct (ScreenFacts.blank_dec q') as [Hb' | Hn'];
    [now apply ScreenFacts.matchesQuery_blank |].
  destruct (ScreenFacts.blank_dec q) as [Hb | Hn].
  - apply (proj2 (ScreenFacts.allWhiteSpace_toLowerCase q)) in Hb.
    apply (ScreenFacts.allWhiteSpace_substring _ _ Hsub) in Hb.
    apply (proj1 (ScreenFacts.allWhiteSpace_toLowerCase q')) in Hb.
    now apply ScreenFacts.matchesQuery_blank.
  - apply (matchesQuery_spec fmt q ad Hn) in Hm.
    apply (matchesQuery_spec fmt q' ad Hn').
    destruct Hm as [H | [H | H]]; [left | right; left | right; right];
      exact (ScreenFacts.isSubstring_trans _ _ _ Hsub H).
Qed.

Lemma X8_longer_query_narrows_the_result_witness :
  subsequence
    (filteredAdvertisements (JsDate.toLocaleDateString 60) "REACT dev"
                            [jobB; jobA])
    (filteredAdvertisements (JsDate.toLocaleDateString 60) "React"
                            [jobB; jobA]).
Proof.
  apply (X8_longer_query_narrows_the_result
           (JsDate.toLocaleDateString 60) "React" "REACT dev" [jobB; jobA]).
  exists EmptyString, " dev". reflexivity.
Defined.

(** X9.  The search does not see the case of the query: two queries with
    the same lowercase form give the same result. *)
Theorem X9_search_ignores_case_of_query :
  forall (rendering : Z -> string) (q1 q2 : string)
         (ads : list Advertisement),
    JsString.toLowerCase q1 = JsString.toLowerCase q2 ->
    filteredAdvertisements rendering q1 ads
    = filteredAdvertisements rendering q2 ads.
Proof.
  intros fmt q1 q2 ads Hl. unfold filteredAdvertisements.
  apply filter_ext. intros ad. unfold matchesQuery.
  assert (Ht : JsString.truthy (JsString.trim q1)
               = JsString.truthy (JsString.trim q2)).
  { destruct (JsString.truthy (JsString.trim q1)) eqn:H1,
             (JsString.truthy (JsString.trim q2)) eqn:H2;
      try reflexivity; exfalso.
    - apply (proj1 (JsStringFacts.truthy_trim_false q2)) in H2.
      apply (proj2 (ScreenFacts.allWhiteSpace_toLowerCase q2)) in H2.
      rewrite <- Hl in H2.
      apply (proj1 (ScreenFacts.allWhiteSpace_toLowerCase q1)) in H2.
      apply (proj2 (JsStringFacts.truthy_trim_false q1)) in H2. congruence.
    - apply (proj1 (JsStringFacts.truthy_trim_false q1)) in H1.
      apply (proj2 (ScreenFacts.allWhiteSpace_toLowerCase q1)) in H1.
      rewrite Hl in H1.
      apply (proj1 (ScreenFacts.allWhiteSpace_toLowerCase q2)) in H1.
      apply (proj2 (JsStringFacts.truthy_trim_false q2)) in H1. congruence. }
  now rewrite Ht, Hl.
Qed.

Lemma X9_search_ignores_case_of_query_witness :
  filteredAdvertisements (JsDate.toLocaleDateString 60) "REACT" [jobB; jobA]
  = filteredAdvertisements (JsDate.toLocaleDateString 60) "react" [jobB; jobA].
Proof.
  apply (X9_search_ignores_case_of_query
           (JsDate.toLocaleDateString 60) "REACT" "react" [jobB; jobA]).
  reflexivity.
Defined.

(** X10.  Searching and removing commute: the search over the list after
    a removal is the search over the list before it with the records of
    the removed id left out. *)
Theorem X10_search_after_removal :
  forall (rendering : Z -> string) (query id0 : string) (st : AppState),
    filteredAdvertisements
      rendering query
      (advertisements (deleteAdvertisement id0 (Confirm Resolves) st))
    = filter (fun ad => negb (string_eqb (id ad) id0))
             (filteredAdvertisements rendering query (advertisements st)).
Proof.
  intros fmt q id0 st. rewrite AppFacts.advertisements_delete.
  unfold filteredAdvertisements. apply RunFacts.filter_filter_comm.
Qed.

(** X11.  A record just added is found by its own texts: after an add
    whose write resolves, a search for the description, or for the url,
    as they were stored returns the new record first, before what the
    search returned until then. *)
Theorem X11_new_record_is_found_by_its_texts :
  forall (rendering : Z -> string) (i d u : string) (n1 n2 : Z)
         (st : AppState),
    let st' := addAdvertisement i d u n1 n2 Resolves st in
    let newAd := mkAd (JsNumber.toString n1) i d u n2 in
    filteredAdvertisements rendering d (advertisements st')
    = newAd :: filteredAdvertisements rendering d (advertisements st)
    /\ filteredAdvertisements rendering u (advertisements st')
       = newAd :: filteredAdvertisements rendering u (advertisements st).
Proof.
  intros fmt i d u n1 n2 st st' newAd. subst st'.
  rewrite AppFacts.advertisements_add. fold newAd.
  assert (Hself : forall q, q = description newAd \/ q = url newAd ->
                            matchesQuery fmt q newAd = true).
  { intros q Hq.
    destruct (ScreenFacts.blank_dec q) as [Hb | Hn];
      [now apply ScreenFacts.matchesQuery_blank |].
    apply (matchesQuery_spec fmt q newAd Hn).
    destruct Hq as [-> | ->]; [left | right; left];
      apply ScreenFacts.isSubstring_refl. }
  unfold filteredAdvertisements. cbn [filter].
  rewrite (Hself d (or_introl eq_refl)), (Hself u (or_intror eq_refl)).
  split; reflexivity.
Qed.

(** X12.  Adding and then removing a record whose id no other record has
    gives back the list as it was, in memory and in the slot. *)
Theorem X12_add_then_remove_restores_list :
  forall (i d u : string) (n1 n2 : Z) (st : AppState),
    hasId (JsNumber.toString n1) (advertisements st) = false ->
    let st' :=
      deleteAdvertisement (JsNumber.toString n1) (Confirm Resolves)
        (addAdvertisement i d u n1 n2 Resolves st) in
    advertisements st' = advertisements st
    /\ slot st' = Some (Json.stringify (advertisements st)).
Proof.
  intros i d u n1 n2 st Hfresh st'. subst st'.
  rewrite AppFacts.advertisements_delete, AppFacts.slot_delete.
  rewrite AppFacts.advertisements_add.
  assert (Hf : filter
                 (fun ad => negb (string_eqb (id ad) (JsNumber.toString n1)))
                 (mkAd (JsNumber.toString n1) i d u n2 :: advertisements st)
               = advertisements st).
  { cbn [filter id]. unfold string_eqb at 1.
    rewrite String.eqb_refl. cbn [negb].
    now apply AppFacts.filter_absent. }
  rewrite Hf. split; reflexivity.
Qed.

Lemma X12_add_then_remove_restores_list_witness :
  advertisements
    (deleteAdvertisement (JsNumber.toString 5) (Confirm Resolves)
       (addAdvertisement "file:///5.jpg" "Job E" "http://e" 5 5 Resolves
          (loadedState [jobA])))
  = advertisements (loadedState [jobA]).
Proof.
  exact (proj1 (X12_add_then_remove_restores_list
                  "file:///5.jpg" "Job E" "http://e" 5 5
                  (loadedState [jobA]) eq_refl)).
Defined.

(** X13.  The limit notice keeps its word: with at most five records
    held, once a record that the store holds is removed, '+ Dodaj' opens
    the add form again. *)
Theorem X13_removal_reopens_the_add_form :
  forall (id0 : string) (st : AppState),
    (List.length (advertisements st) <= 5)%nat ->
    hasId id0 (advertisements st) = true ->
    currentScreen
      (handleAddPress (deleteAdvertisement id0 (Confirm Resolves) st))
    = Add.
Proof.
  intros id0 st Hle Hhas. unfold handleAddPress.
  rewrite AppFacts.advertisements_delete.
  pose proof (RunFacts.filter_removes_one id0 (advertisements st) Hhas) as Hlt.
  destruct (5 <=? _)%nat eqn:H5; [apply Nat.leb_le in H5; lia |].
  reflexivity.
Qed.

Lemma X13_removal_reopens_the_add_form_witness :
  let full := addAll fiveCalls (initialState None) in
  currentScreen (handleAddPress full) = Home
  /\ currentScreen
       (handleAddPress (deleteAdvertisement "1003" (Confirm Resolves) full))
     = Add.
Proof.
  split; [reflexivity |].
  apply (X13_removal_reopens_the_add_form
           "1003" (addAll fiveCalls (initialState None)));
    [vm_compute; lia | reflexivity].
Defined.

(** X14.  The text in the slot determines the list: two different lists
    are never written by [saveAdvertisements] as the same text. *)
Theorem X14_different_lists_different_text :
  forall (ads ads' : list Advertisement),
    ads <> ads' -> Json.stringify ads <> Json.stringify ads'.
Proof.
  intros ads ads' Hne H. apply Hne.
  pose proof (JsonFacts.parse_stringify ads) as Ha.
  pose proof (JsonFacts.parse_stringify ads') as Hb.
  rewrite H, Hb in Ha. injection Ha as Ha.
  symmetry. revert Ha. apply RunFacts.map_inj.
  apply RunFacts.valueOfAdvertisement_inj.
Qed.

Lemma X14_different_lists_different_text_witness :
  Json.stringify [jobA] <> Json.stringify [jobB].
Proof.
  apply (X14_different_lists_different_text [jobA] [jobB]).
  discriminate.
Defined.

(** X15.  What a load touches when it ends with a list of records in the
    list cell, from any state: it has not written the slot, has shown no
    alert, has kept the screen, and loading is over.  It has logged an
    error, once, exactly when the read was rejected or the slot held a text
    that is not empty and is not JSON; then, and when the slot was absent
    or held the empty text, the list is as it was; otherwise the list is
    the one that the text of the slot stands for. *)
Theorem X15_load_reads_only_and_logs_failures :
  forall (io : IO) (st st' : AppState),
    loadAdvertisements io st = Typed st' ->
    slot st' = slot st
    /\ alerts st' = alerts st
    /\ currentScreen st' = currentScreen st
    /\ loading st' = false
    /\ ((io = Rejects
         \/ exists text, slot st = Some text /\ text <> EmptyString
                         /\ Json.parse text = Json.SyntaxError) ->
        console st' = (console st ++ [LoadError])%list
        /\ advertisements st' = advertisements st)
    /\ (io = Resolves ->
        (forall text, slot st = Some text -> text <> EmptyString ->
                      Json.parse text <> Json.SyntaxError) ->
        console st' = console st)
    /\ (io = Resolves ->
        (slot st = None \/ slot st = Some EmptyString) ->
        advertisements st' = advertisements st)
    /\ (io = Resolves ->
        forall text v,
          slot st = Some text -> text <> EmptyString ->
          Json.parse text = Json.Ok v ->
          asAdvertisements v = Some (advertisements st')).
Proof.
  intros io st st'. unfold loadAdvertisements.
  destruct io; [destruct (slot st) as [[|c text]|] eqn:Hs |];
    cbn [JsString.truthy JsString.isEmpty negb];
    [ | destruct (Json.parse (String c text)) as [v| |] eqn:Hp;
          [destruct (asAdvertisements v) as [ads|] eqn:Hv;
             [| destruct v; discriminate] | | discriminate] | | ];
    intros Hst; injection Hst as <-; cbn; rewrite ?Hs;
    repeat match goal with |- _ /\ _ => split end;
    try reflexivity;
    intros;
    repeat match goal with
           | H : _ \/ _ |- _ => destruct H
           | H : exists _, _ |- _ => destruct H as (? & ? & ? & ?)
           end;
    try (split; reflexivity);
    try congruence;
    match goal with
    | Hall : forall t, Some _ = Some t -> _ -> _ <> _ |- _ =>
        exfalso; apply (Hall _ eq_refl); [discriminate | assumption]
    end.
Qed.

Lemma X15_load_reads_only_and_logs_failures_witness :
  console (setLoading false (consoleError LoadError (loadedState [jobA])))
  = [LoadError]
  /\ advertisements
       (setLoading false (consoleError LoadError (loadedState [jobA])))
     = [jobA].
Proof.
  exact (proj1 (proj2 (proj2 (proj2 (proj2
    (X15_load_reads_only_and_logs_failures
       Rejects (loadedState [jobA])
       (setLoading false (consoleError LoadError (loadedState [jobA])))
       eq_refl)))))
    (or_introl eq_refl)).
Defined.

(** X16.  What the home screen shows.  The notice that nothing was found
    appears only for a query that is not blank, over a store that is not
    empty, when no record matches.  With a blank query a loaded, non-empty
    store is shown whole.  The cards shown are never an empty list and are
    records of the store in its order. *)
Theorem X16_home_view_cases :
  forall (rendering : Z -> string) (query : string) (st : AppState),
    (forall q, homeView rendering query st = ShowsNoResults q ->
               q = query
               /\ JsString.trim query <> EmptyString
               /\ advertisements st <> []
               /\ forall ad, In ad (advertisements st) ->
                             matchesQuery rendering query ad = false)
    /\ (JsString.allWhiteSpace query ->
        loading st = false ->
        advertisements st <> [] ->
        homeView rendering query st = ShowsCards (advertisements st))
    /\ (forall items, homeView rendering query st = ShowsCards items ->
                      items <> []
                      /\ subsequence items (advertisements st)
                      /\ loading st = false).
Proof.
  intros fmt q st. unfold homeView.
  split; [| split].
  - intros q' H.
    destruct (loading st); [discriminate |].
    destruct (advertisements st) as [|a ads] eqn:Hads; [discriminate |].
    cbn [List.length Nat.eqb] in H. cbv zeta in H.
    destruct (filteredAdvertisements fmt q (a :: ads)) as [|x l] eqn:Hf;
      [| discriminate].
    cbn in H. injection H as <-.
    assert (Hnone : forall ad, In ad (a :: ads) -> matchesQuery fmt q ad = false).
    { intros ad Hin. destruct (matchesQuery fmt q ad) eqn:Hm; [| reflexivity].
      assert (Hin' : In ad (filteredAdvertisements fmt q (a :: ads)))
        by (apply filter_In; now split).
      rewrite Hf in Hin'. destruct Hin'. }
    repeat split; try discriminate; [| exact Hnone].
    intros Ht. apply JsStringFacts.trim_empty in Ht.
    specialize (Hnone a (or_introl eq_refl)).
    rewrite (ScreenFacts.matchesQuery_blank fmt q a Ht) in Hnone.
    discriminate.
  - intros Hws Hl Hne. rewrite Hl.
    destruct (advertisements st) as [|a ads] eqn:Hads; [congruence |].
    cbn [List.length Nat.eqb]. cbv zeta.
    assert (Hall : filteredAdvertisements fmt q (a :: ads) = a :: ads).
    { apply AppFacts.filter_id. intros ad _.
      now apply ScreenFacts.matchesQuery_blank. }
    rewrite Hall. reflexivity.
  - intros items H.
    destruct (loading st); [discriminate |].
    destruct (advertisements st) as [|a ads] eqn:Hads; [discriminate |].
    cbn [List.length Nat.eqb] in H. cbv zeta in H.
    destruct (filteredAdvertisements fmt q (a :: ads)) as [|x l] eqn:Hf;
      [discriminate |].
    cbn in H. injection H as <-.
    repeat split; [discriminate |].
    rewrite <- Hf. apply AppFacts.filter_subsequence.
Qed.

Lemma X16_home_view_cases_witness :
  homeView (JsDate.toLocaleDateString 60) "  " (loadedState [jobB; jobA])
  = ShowsCards (advertisements (loadedState [jobB; jobA])).
Proof.
  assert (Hws : JsString.allWhiteSpace "  ")
    by (intros c [<- | [<- | []]]; reflexivity).
  apply (proj1 (proj2 (X16_home_view_cases
                         (JsDate.toLocaleDateString 60) "  "
                         (loadedState [jobB; jobA])))
               Hws eq_refl).
  discriminate.
Defined.

Lemma fillForm_image (events : list FormEvent) :
  forall f : AddForm,
    isPickingImage f = false ->
    isPickingImage (fillForm events f) = false
    /\ (formImageUri (fillForm events f) = formImageUri f
        \/ exists e u, In e events /\ pickedUri e = Some u
                       /\ formImageUri (fillForm events f) = u).
Proof.
  unfold fillForm.
  induction events as [|e events IH]; intros f Hp; cbn [fold_left].
  - split; [exact Hp | now left].
  - assert (Hstep : isPickingImage (formStep f e) = false
                    /\ (formImageUri (formStep f e) = formImageUri f
                        \/ exists u, pickedUri e = Some u
                                     /\ formImageUri (formStep f e) = u)).
    { destruct e as [[|[[|u l]|]|]| |]; cbn; split;
        try exact Hp; try reflexivity; try (now left).
      right. now exists u. }
    destruct Hstep as [Hp' Himg].
    destruct (IH (formStep f e) Hp') as [Hfin [Hsame | (e' & u & Hin & Hu & Hres)]].
    + split; [exact Hfin |]. rewrite Hsame.
      destruct Himg as [Hkeep | (u & Hu & Hres)]; [now left |].
      right. exists e, u. repeat split; [now left | exact Hu | exact Hres].
    + split; [exact Hfin |]. right. exists e', u.
      repeat split; [now right | exact Hu | exact Hres].
Qed.

(** X17.  The image of the form comes from a pick that returned an asset.
    After any picks and typing on the add form the picking flag is off,
    and the image is the one the form started with or the first asset of
    one of the picks; cancelled, empty and failed picks leave it.  So on a
    fresh form, as long as no pick has returned an asset, 'Zapisz' is
    refused with 'Wybierz zdjecie', whatever was typed. *)
Theorem X17_image_comes_from_a_pick :
  forall (events : list FormEvent) (f : AddForm),
    isPickingImage f = false ->
    isPickingImage (fillForm events f) = false
    /\ (formImageUri (fillForm events f) = formImageUri f
        \/ exists e u, In e events /\ pickedUri e = Some u
                       /\ formImageUri (fillForm events f) = u)
    /\ ((forall e, In e events -> pickedUri e = None) ->
        f = emptyForm ->
        forall n1 n2 io st,
          saveForm (fillForm events f) n1 n2 io st = alert AlertPickImage st).
Proof.
  intros events f Hp.
  destruct (fillForm_image events f Hp) as [Hflag Himg].
  split; [exact Hflag |]. split; [exact Himg |].
  intros Hnone -> n1 n2 io st.
  assert (Huri : formImageUri (fillForm events emptyForm) = EmptyString).
  { destruct Himg as [H | (e & u & Hin & Hu & _)]; [exact H |].
    rewrite (Hnone e Hin) in Hu. discriminate. }
  unfold saveForm, handleSave. rewrite Huri. reflexivity.
Qed.

Lemma X17_image_comes_from_a_pick_witness :
  saveForm
    (fillForm [PickImage PickCanceled; TypeDescription "Job A";
               PickImage PickThrows; TypeUrl "http://a";
               PickImage (PickAssets (Some []))]
              emptyForm)
    1 1 Resolves (loadedState [])
  = alert AlertPickImage (loadedState []).
Proof.
  refine (proj2 (proj2 (X17_image_comes_from_a_pick
            [PickImage PickCanceled; TypeDescription "Job A";
             PickImage PickThrows; TypeUrl "http://a";
             PickImage (PickAssets (Some []))]
            emptyForm eq_refl)) _ eq_refl 1 1 Resolves (loadedState [])).
  intros e [<- | [<- | [<- | [<- | [<- | []]]]]]; reflexivity.
Defined.

(** X18.  Looking does not change the data: presses other than a save or
    a confirmed removal whose write resolves, in any number and order,
    leave the list in memory and the slot exactly as they were. *)
Theorem X18_only_resolved_writes_change_the_store :
  forall (events : list Event) (st : AppState),
    Forall (fun e => writes e = false) events ->
    advertisements (run events st) = advertisements st
    /\ slot (run events st) = slot st.
Proof.
  unfold run. intros events st H. revert st.
  induction H as [|e events He _ IH]; intros st; cbn [fold_left];
    [split; reflexivity |].
  destruct (IH (dispatch st e)) as [Ha Hs].
  destruct (RunFacts.dispatch_frame st e He) as [Ha' Hs'].
  split; congruence.
Qed.

Lemma X18_only_resolved_writes_change_the_store_witness :
  advertisements
    (run [PressAdd; PressSave "file:///1.jpg" "Job" "http://a" 1 1 Rejects;
          PressCard 0; PressDelete Cancel; PressDelete (Confirm Rejects);
          PressAdd; PressBack]
         (loadedState [jobA]))
  = advertisements (loadedState [jobA]).
Proof.
  apply (X18_only_resolved_writes_change_the_store
           [PressAdd; PressSave "file:///1.jpg" "Job" "http://a" 1 1 Rejects;
            PressCard 0; PressDelete Cancel; PressDelete (Confirm Rejects);
            PressAdd; PressBack]
           (loadedState [jobA])).
  repeat constructor.
Defined.

(** X19.  The limit holds across restarts: after any presses from a
    state within the limit whose slot holds its list, a freshly mounted
    application that loads the slot holds at most five records, and it
    still does after any further presses. *)
Theorem X19_limit_survives_restart :
  forall (before after : list Event) (st : AppState),
    slotInStep st ->
    timeValues (advertisements st) ->
    withinLimit st ->
    Forall clockInRange before ->
    exists st2,
      loadAdvertisements Resolves (initialState (slot (run before st)))
      = Typed st2
      /\ advertisements st2 = advertisements (run before st)
      /\ (List.length (advertisements (run after st2)) <= 5)%nat.
Proof.
  intros before after st Hs Ht Hl Hc.
  set (st1 := run before st).
  exists (setLoading false
            (setAdvertisements (advertisements st1)
                               (initialState (slot st1)))).
  split; [| split].
  - apply AppFacts.load_stringify.
    + now apply RunFacts.run_timeValues.
    + now apply RunFacts.run_slotInStep.
  - reflexivity.
  - apply AppFacts.run_withinLimit. split.
    + cbn. exact (proj1 (AppFacts.run_withinLimit before st Hl)).
    + cbn. discriminate.
Qed.

Lemma X19_limit_survives_restart_witness :
  exists st2,
    loadAdvertisements Resolves
      (initialState (slot (run sixRounds (loadedState []))))
    = Typed st2
    /\ advertisements st2 = advertisements (run sixRounds (loadedState []))
    /\ (List.length (advertisements (run sixRounds st2)) <= 5)%nat.
Proof.
  apply (X19_limit_survives_restart sixRounds sixRounds (loadedState [])).
  - reflexivity.
  - constructor.
  - split; [cbn; lia | discriminate].
  - repeat constructor.
Defined.

Lemma same_id_same_record (l : list Advertisement) (a x : Advertisement) :
  NoDup (map id l) -> In a l -> In x l -> id x = id a -> x = a.
Proof.
  induction l as [|y l IH]; intros Hnd Ha Hx Hid; [destruct Ha |].
  cbn [map] in Hnd. inversion Hnd as [|? ? Hnotin Hnd']; subst.
  destruct Ha as [-> | Ha], Hx as [-> | Hx].
  - reflexivity.
  - exfalso. apply Hnotin. rewrite <- Hid. now apply in_map.
  - exfalso. apply Hnotin. rewrite Hid. now apply in_map.
  - now apply IH.
Qed.

Lemma filter_removes_exactly_one (l : list Advertisement) (a : Advertisement) :
  NoDup (map id l) -> In a l ->
  S (List.length (filter (fun x => negb (string_eqb (id x) (id a))) l))
  = List.length l.
Proof.
  induction l as [|y l IH]; intros Hnd Ha; [destruct Ha |].
  cbn [map] in Hnd. inversion Hnd as [|? ? Hnotin Hnd']; subst.
  cbn [filter]. unfold string_eqb at 1.
  destruct (String.eqb (id y) (id a)) eqn:Hy; cbn [negb List.length].
  - apply String.eqb_eq in Hy. f_equal.
    rewrite AppFacts.filter_absent; [reflexivity |].
    apply AppFacts.hasId_false. intros x Hx Hid.
    apply Hnotin. rewrite Hy, <- Hid. now apply in_map.
  - apply String.eqb_neq in Hy. f_equal. apply IH; [exact Hnd' |].
    destruct Ha as [-> | Ha]; [congruence | exact Ha].
Qed.

Lemma distinct_ids_filter (keep : Advertisement -> bool)
      (ads : list Advertisement) :
  NoDup (map id ads) -> NoDup (map id (filter keep ads)).
Proof.
  intros Hnd. induction ads as [|a ads IH]; cbn [filter map];
    [constructor |].
  cbn [map] in Hnd. inversion Hnd as [|? ? Hnotin Hrest]; subst.
  destruct (keep a); [| now apply IH].
  cbn [map]. constructor; [| now apply IH].
  intros Hin. apply Hnotin. apply in_map_iff in Hin as (y & Hy & Hyin).
  apply filter_In in Hyin as [Hyin _]. rewrite <- Hy. now apply in_map.
Qed.

(** X20.  With pairwise distinct ids in the store, a removal whose write
    resolves takes away the one record whose id was given and nothing
    else: the list is one shorter and holds exactly the other records. *)
Theorem X20_distinct_ids_removal_takes_one_record :
  forall (st : AppState) (ad : Advertisement),
    NoDup (map id (advertisements st)) ->
    In ad (advertisements st) ->
    let st' := deleteAdvertisement (id ad) (Confirm Resolves) st in
    (forall x, In x (advertisements st')
               <-> In x (advertisements st) /\ x <> ad)
    /\ S (List.length (advertisements st'))
       = List.length (advertisements st).
Proof.
  intros st ad Hnd Hin st'. subst st'.
  rewrite AppFacts.advertisements_delete. split.
  - intros x. rewrite filter_In, negb_true_iff. unfold string_eqb.
    rewrite String.eqb_neq. split.
    + intros [Hx Hne]. split; [exact Hx | congruence].
    + intros [Hx Hne]. split; [exact Hx |]. intros Hid. apply Hne.
      now apply (same_id_same_record (advertisements st)).
  - now apply filter_removes_exactly_one.
Qed.

Lemma X20_distinct_ids_removal_takes_one_record_witness :
  S (List.length
       (advertisements
          (deleteAdvertisement (id jobA) (Confirm Resolves)
                               (loadedState [jobB; jobA]))))
  = List.length (advertisements (loadedState [jobB; jobA])).
Proof.
  apply (X20_distinct_ids_removal_takes_one_record
           (loadedState [jobB; jobA]) jobA).
  - repeat constructor; cbn; intuition discriminate.
  - right. now left.
Defined.

(** X21.  Distinct ids stay distinct: a removal never makes two records
    share an id, and neither does an add whose id no stored record has,
    whether its write resolves or not. *)
Theorem X21_distinct_ids_are_kept :
  forall (st : AppState),
    NoDup (map id (advertisements st)) ->
    (forall id0 answer,
        NoDup (map id (advertisements (deleteAdvertisement id0 answer st))))
    /\ (forall i d u n1 n2 io,
          hasId (JsNumber.toString n1) (advertisements st) = false ->
          NoDup (map id
                     (advertisements (addAdvertisement i d u n1 n2 io st)))).
Proof.
  intros st Hnd. split.
  - intros id0 [|io]; [exact Hnd |].
    rewrite AppFacts.advertisements_delete. destruct io; [| exact Hnd].
    now apply distinct_ids_filter.
  - intros i d u n1 n2 io Hfresh.
    rewrite AppFacts.advertisements_add. destruct io; [| exact Hnd].
    cbn [map id]. constructor; [| exact Hnd].
    intros Hin. apply in_map_iff in Hin as (x & Hx & Hxin).
    exact (proj1 (AppFacts.hasId_false _ _) Hfresh x Hxin Hx).
Qed.

Lemma X21_distinct_ids_are_kept_witness :
  NoDup (map id
             (advertisements
                (addAdvertisement "file:///3.jpg" "Job C" "http://c" 3 3
                                  Resolves (loadedState [jobB; jobA])))).
Proof.
  assert (Hnd : NoDup (map id (advertisements (loadedState [jobB; jobA]))))
    by (repeat constructor; cbn; intuition discriminate).
  exact (proj2 (X21_distinct_ids_are_kept (loadedState [jobB; jobA]) Hnd)
               "file:///3.jpg" "Job C" "http://c" 3 3 Resolves eq_refl).
Defined.
